(** * xsimd: the AVX-512 single-precision batch, [batch<float, 16>]

    A shallow embedding of [include/xsimd/types/xsimd_avx512_float.hpp].

    A [float] lane is its IEEE 754 binary32 bit pattern, a 32-bit integer
    carried in [Z].  A [__m512] register is the list of its sixteen lanes,
    lane [j] standing for bits [32*j+31 : 32*j]; a [__mmask16] is a 16-bit
    integer whose bit [j] is the flag of lane [j].  The Intel intrinsics the
    header calls are written after the operation sections of the Intel
    Intrinsics Guide, one definition per intrinsic, under the intrinsic's own
    name.  Arithmetic is the one of the default MXCSR state (round to nearest
    even, denormals kept, exceptions masked); the float to integer
    conversion takes the MXCSR rounding control as an argument, since it is
    the only place of the header where the rounding direction is visible in
    the integer result. *)

From Stdlib Require Import ZArith List Bool Lia.
From Stdlib Require Import Floats.SpecFloat.
From stdpp Require Import base option gmap.
Import ListNotations.

Local Open Scope Z_scope.

(** ** IEEE 754 binary32 on bit patterns *)

Definition prec32 : Z := 24.
Definition emax32 : Z := 128.

Definition sign_of (x : Z) : bool := Z.testbit x 31.
Definition biased_exp (x : Z) : Z := Z.land (Z.shiftr x 23) 255.
Definition fraction (x : Z) : Z := Z.land x 0x7FFFFF.

Definition sign_bit (s : bool) : Z := if s then 0x80000000 else 0.

Definition is_nan (x : Z) : bool :=
  (biased_exp x =? 255) && negb (fraction x =? 0).

(** The value a bit pattern denotes. *)
Definition to_spec (x : Z) : spec_float :=
  if biased_exp x =? 255 then
    if fraction x =? 0 then S754_infinity (sign_of x) else S754_nan
  else if biased_exp x =? 0 then
    match fraction x with
    | Zpos m => S754_finite (sign_of x) m (-149)
    | _ => S754_zero (sign_of x)
    end
  else
    S754_finite (sign_of x) (Z.to_pos (fraction x + 0x800000)) (biased_exp x - 150).

(** The x86 default NaN ("QNaN floating-point indefinite"), produced by an
    invalid operation on operands that are not NaN. *)
Definition QNaN_indefinite : Z := 0xFFC00000.

(** The bit pattern of a value; finite values are expected canonical, as the
    operations of [SpecFloat] return them. *)
Definition of_spec (f : spec_float) : Z :=
  match f with
  | S754_zero s => sign_bit s
  | S754_infinity s => sign_bit s + 0x7F800000
  | S754_nan => QNaN_indefinite
  | S754_finite s m e =>
      if Z.pos m <? 0x800000 then sign_bit s + Z.pos m
      else sign_bit s + (e + 150) * 0x800000 + (Z.pos m - 0x800000)
  end.

(** A NaN operand is returned with its quiet bit (bit 22) set. *)
Definition quiet (x : Z) : Z := Z.lor x 0x00400000.

(** NaN handling of the SSE/AVX two-operand instructions (Intel SDM vol. 1,
    table 4-7): the first source operand if it is a NaN, else the second
    one, in both cases quieted; otherwise the IEEE result. *)
Definition binop32 (op : spec_float -> spec_float -> spec_float) (a b : Z) : Z :=
  if is_nan a then quiet a
  else if is_nan b then quiet b
  else of_spec (op (to_spec a) (to_spec b)).

Definition fadd32 : Z -> Z -> Z := binop32 (SFadd prec32 emax32).
Definition fsub32 : Z -> Z -> Z := binop32 (SFsub prec32 emax32).

(** IEEE comparison: [None] is "unordered". *)
Definition fcompare32 (a b : Z) : option comparison :=
  SFcompare (to_spec a) (to_spec b).

(** *** The scalar operators of C++ on [float] *)

(** [-x]: the IEEE negate operation, which flips the sign bit and nothing
    else (also of a zero and of a NaN). *)
Definition scalar_neg (x : Z) : Z := Z.lxor x 0x80000000.

(** [a != b]: true unless the operands compare equal; true on unordered. *)
Definition scalar_ne (a b : Z) : bool :=
  match fcompare32 a b with
  | Some Eq => false
  | _ => true
  end.

(** [a < b]. *)
Definition scalar_lt (a b : Z) : bool :=
  match fcompare32 a b with
  | Some Lt => true
  | _ => false
  end.

(** [a + b]. *)
Definition scalar_add (a b : Z) : Z := fadd32 a b.

(** *** Conversion to integers *)

(** MXCSR.RC, the rounding control field. *)
Inductive rounding_control : Type :=
  | RC_nearest   (* 00b, the default *)
  | RC_down      (* 01b *)
  | RC_up        (* 10b *)
  | RC_zero.     (* 11b *)

(** The integer next to the rational [n / d] ([0 < d]) in direction [rc]. *)
Definition round_quotient (rc : rounding_control) (n d : Z) : Z :=
  match rc with
  | RC_down => n / d
  | RC_up => - ((- n) / d)
  | RC_zero => Z.quot n d
  | RC_nearest =>
      let q := n / d in
      let r := n mod d in
      match 2 * r ?= d with
      | Lt => q
      | Gt => q + 1
      | Eq => if Z.even q then q else q + 1
      end
  end.

(** The exact value [(-1)^s * m * 2^e] of a finite float, rounded to an
    integer. *)
Definition round_to_integer (rc : rounding_control) (s : bool) (m : positive) (e : Z) : Z :=
  if 0 <=? e then cond_Zopp s (Z.pos m * 2 ^ e)
  else round_quotient rc (cond_Zopp s (Z.pos m)) (2 ^ (- e)).

(** Conversion to a signed [w]-bit integer, returned as its two's
    complement pattern; the "integer indefinite" value [2^(w-1)] stands for
    NaN, the infinities and the results out of range. *)
Definition float_to_int (w : Z) (rc : rounding_control) (x : Z) : Z :=
  match to_spec x with
  | S754_zero _ => 0
  | S754_finite s m e =>
      let n := round_to_integer rc s m e in
      if (- 2 ^ (w - 1) <=? n) && (n <? 2 ^ (w - 1)) then n mod 2 ^ w
      else 2 ^ (w - 1)
  | _ => 2 ^ (w - 1)
  end.

(** [int64_t(f)] of C++ truncates toward zero (cvttss2si on x86-64). *)
Definition scalar_to_int64 (x : Z) : Z := float_to_int 64 RC_zero x.

(** The signed integer a [w]-bit pattern stands for. *)
Definition signed (w : Z) (p : Z) : Z :=
  if p mod 2 ^ w <? 2 ^ (w - 1) then p mod 2 ^ w else p mod 2 ^ w - 2 ^ w.

(** The mathematical truncation toward zero of the value of [x], when [x]
    is finite. *)
Definition truncation_toward_zero (x : Z) : option Z :=
  match to_spec x with
  | S754_zero _ => Some 0
  | S754_finite s m e =>
      Some (if 0 <=? e then cond_Zopp s (Z.pos m * 2 ^ e)
            else Z.quot (cond_Zopp s (Z.pos m)) (2 ^ (- e)))
  | _ => None
  end.

(** ** Registers and masks *)

(** [__m512] and [__m256]: sixteen, respectively eight, binary32 lanes. *)
Definition m512 : Type := list Z.
Definition m256 : Type := list Z.

(** [__m512i]: the same 512 bits, read as sixteen 32-bit integers. *)
Definition m512i : Type := list Z.

(** [__mmask16]. *)
Definition mmask16 : Type := Z.

(** Lane [j] of a register. *)
Definition lane (v : list Z) (j : nat) : Z := nth j v 0.

(** "FOR j := 0 to n-1": the register whose lane [j] is [f j]. *)
Definition for_lanes (n : nat) (f : nat -> Z) : list Z := map f (seq 0 n).

(** The mask whose bit [j] is [f j], for [j < n]. *)
Fixpoint for_mask (n : nat) (f : nat -> bool) : Z :=
  match n with
  | O => 0
  | S k => Z.lor (for_mask k f) (if f k then Z.shiftl 1 (Z.of_nat k) else 0)
  end.

(** ** Memory *)

(** Memory maps the byte address of a scalar object ([float], [int32_t],
    [int64_t]) to its bit pattern; an address that is not mapped is not
    readable.  [None] is the fault of an access the hardware refuses. *)
Definition aligned64 (p : Z) : bool := p mod 64 =? 0.

(** Sixteen consecutive scalars of [stride] bytes, from address [p]. *)
Definition read16 (stride : Z) (mem : gmap Z Z) (p : Z) : option (list Z) :=
  mapM (fun j => mem !! (p + stride * Z.of_nat j)) (seq 0 16).

(** Element [j] of the array at [p] receives lane [j] of [v]. *)
Definition put_lane (stride p : Z) (v : list Z) (acc : gmap Z Z) (j : nat) : gmap Z Z :=
  <[p + stride * Z.of_nat j := lane v j]> acc.

Definition write16 (stride : Z) (mem : gmap Z Z) (p : Z) (v : list Z) : gmap Z Z :=
  fold_left (put_lane stride p v) (seq 0 16) mem.

(** ** The intrinsics used by the header *)

Definition _mm512_setzero_ps : m512 := for_lanes 16 (fun _ => 0).

Definition _mm512_loadu_ps (mem : gmap Z Z) (p : Z) : option m512 := read16 4 mem p.

(** "mem_addr must be aligned on a 64-byte boundary or a general-protection
    exception may be generated." *)
Definition _mm512_load_ps (mem : gmap Z Z) (p : Z) : option m512 :=
  if aligned64 p then read16 4 mem p else None.

Definition _mm512_storeu_ps (mem : gmap Z Z) (p : Z) (a : m512) : option (gmap Z Z) :=
  Some (write16 4 mem p a).

Definition _mm512_store_ps (mem : gmap Z Z) (p : Z) (a : m512) : option (gmap Z Z) :=
  if aligned64 p then Some (write16 4 mem p a) else None.

Definition _mm512_storeu_si512 (mem : gmap Z Z) (p : Z) (a : m512i) : option (gmap Z Z) :=
  Some (write16 4 mem p a).

Definition _mm512_store_si512 (mem : gmap Z Z) (p : Z) (a : m512i) : option (gmap Z Z) :=
  if aligned64 p then Some (write16 4 mem p a) else None.

(** "Convert packed single-precision elements in a to packed 32-bit
    integers": rounds as MXCSR.RC says. *)
Definition _mm512_cvtps_epi32 (rc : rounding_control) (a : m512) : m512i :=
  for_lanes 16 (fun j => float_to_int 32 rc (lane a j)).

Definition _mm512_add_ps (a b : m512) : m512 :=
  for_lanes 16 (fun j => fadd32 (lane a j) (lane b j)).

Definition _mm512_sub_ps (a b : m512) : m512 :=
  for_lanes 16 (fun j => fsub32 (lane a j) (lane b j)).

(** [__m256 + __m256], the lane-wise sum of the compiler's vector types. *)
Definition m256_add (a b : m256) : m256 :=
  for_lanes 8 (fun j => fadd32 (lane a j) (lane b j)).

(** "dst[i+31:i] := ((NOT a[i+31:i]) AND b[i+31:i])". *)
Definition _mm512_andnot_ps (a b : m512) : m512 :=
  for_lanes 16 (fun j => Z.land (Z.lxor (lane a j) 0xFFFFFFFF) (lane b j)).

(** Comparison predicates of [immintrin.h]. *)
Definition _CMP_EQ_OQ : Z := 0x00.
Definition _CMP_UNORD_Q : Z := 0x03.
Definition _CMP_NEQ_UQ : Z := 0x04.
Definition _CMP_NEQ_OQ : Z := 0x0c.
Definition _CMP_LT_OQ : Z := 0x11.
Definition _CMP_LE_OQ : Z := 0x12.

(** Truth table of VCMPPS (Intel SDM vol. 2, table 3-1).  Bit 4 of the
    immediate only chooses whether a quiet NaN signals; the result is the
    one of bits 3:0.  The four columns are A > B, A < B, A = B, unordered. *)
Definition cmp_table (gt lt eq un : bool) (r : option comparison) : bool :=
  match r with
  | Some Gt => gt
  | Some Lt => lt
  | Some Eq => eq
  | None => un
  end.

Definition cmp_predicate (imm8 : Z) : option comparison -> bool :=
  match Z.land imm8 15 with
  | 0 => cmp_table false false true false    (* EQ_OQ,    EQ_OS    *)
  | 1 => cmp_table false true false false    (* LT_OS,    LT_OQ    *)
  | 2 => cmp_table false true true false     (* LE_OS,    LE_OQ    *)
  | 3 => cmp_table false false false true    (* UNORD_Q,  UNORD_S  *)
  | 4 => cmp_table true true false true      (* NEQ_UQ,   NEQ_US   *)
  | 5 => cmp_table true false true true      (* NLT_US,   NLT_UQ   *)
  | 6 => cmp_table true false false true     (* NLE_US,   NLE_UQ   *)
  | 7 => cmp_table true true true false      (* ORD_Q,    ORD_S    *)
  | 8 => cmp_table false false true true     (* EQ_UQ,    EQ_US    *)
  | 9 => cmp_table false true false true     (* NGE_US,   NGE_UQ   *)
  | 10 => cmp_table false true true true     (* NGT_US,   NGT_UQ   *)
  | 11 => cmp_table false false false false  (* FALSE_OQ, FALSE_OS *)
  | 12 => cmp_table true true false false    (* NEQ_OQ,   NEQ_OS   *)
  | 13 => cmp_table true false true false    (* GE_OS,    GE_OQ    *)
  | 14 => cmp_table true false false false   (* GT_OS,    GT_OQ    *)
  | _ => cmp_table true true true true       (* TRUE_UQ,  TRUE_US  *)
  end.

(** "k[j] := (a[i+31:i] OP b[i+31:i]) ? 1 : 0". *)
Definition _mm512_cmp_ps_mask (a b : m512) (imm8 : Z) : mmask16 :=
  for_mask 16 (fun j => cmp_predicate imm8 (fcompare32 (lane a j) (lane b j))).

(** "IF k[j] dst[i+31:i] := b[i+31:i] ELSE dst[i+31:i] := a[i+31:i]". *)
Definition _mm512_mask_blend_ps (k : mmask16) (a b : m512) : m512 :=
  for_lanes 16 (fun j => if Z.testbit k (Z.of_nat j) then lane b j else lane a j).

(** [_MM_SHUFFLE(z, y, x, w)] is [(z << 6) | (y << 4) | (x << 2) | w]. *)
Definition _MM_SHUFFLE (z y x w : Z) : Z :=
  Z.lor (Z.lor (Z.shiftl z 6) (Z.shiftl y 4)) (Z.lor (Z.shiftl x 2) w).

(** Two bits of an immediate, from bit [k]. *)
Definition imm2 (imm8 : Z) (k : Z) : nat := Z.to_nat (Z.land (Z.shiftr imm8 k) 3).

(** The 128-bit group [k] of a register: lanes [4k .. 4k+3]. *)
Definition select4_128 (src : list Z) (k : nat) : list Z :=
  for_lanes 4 (fun j => lane src (4 * k + j)).

(** "Shuffle 128-bits (composed of 4 single-precision elements) selected by
    imm8 from a and b". *)
Definition _mm512_shuffle_f32x4 (a b : m512) (imm8 : Z) : m512 :=
  select4_128 a (imm2 imm8 0) ++ select4_128 a (imm2 imm8 2) ++
  select4_128 b (imm2 imm8 4) ++ select4_128 b (imm2 imm8 6).

(** "Shuffle single-precision elements in a within 128-bit lanes using the
    control in imm8": in every 128-bit group, two lanes of [a] then two
    lanes of [b]. *)
Definition _mm512_shuffle_ps (a b : m512) (imm8 : Z) : m512 :=
  for_lanes 16 (fun j =>
    let base := (4 * (j / 4))%nat in
    match (j mod 4)%nat with
    | 0%nat => lane a (base + imm2 imm8 0)
    | 1%nat => lane a (base + imm2 imm8 2)
    | 2%nat => lane b (base + imm2 imm8 4)
    | _ => lane b (base + imm2 imm8 6)
    end).

(** "CASE imm8[0] OF 0: dst := a[255:0]; 1: dst := a[511:256]". *)
Definition _mm512_extractf32x8_ps (a : m512) (imm8 : Z) : m256 :=
  for_lanes 8 (fun j => lane a (if Z.testbit imm8 0 then 8 + j else j)).

(** "dst := a; CASE imm8[0] OF 0: dst[255:0] := b; 1: dst[511:256] := b". *)
Definition _mm512_insertf32x8 (a : m512) (b : m256) (imm8 : Z) : m512 :=
  for_lanes 16 (fun j =>
    if Z.testbit imm8 0
    then (if (j <? 8)%nat then lane a j else lane b (j - 8))
    else (if (j <? 8)%nat then lane b j else lane a j)).

(** "the upper 256 bits of the result are undefined": they are whatever
    [upper] holds. *)
Definition _mm512_castps256_ps512 (upper : m256) (a : m256) : m512 :=
  for_lanes 16 (fun j => if (j <? 8)%nat then lane a j else lane upper (j - 8)).

(** "Horizontally add adjacent pairs of single-precision elements in a and
    b". *)
Definition _mm256_hadd_ps (a b : m256) : m256 :=
  [ fadd32 (lane a 1) (lane a 0); fadd32 (lane a 3) (lane a 2);
    fadd32 (lane b 1) (lane b 0); fadd32 (lane b 3) (lane b 2);
    fadd32 (lane a 5) (lane a 4); fadd32 (lane a 7) (lane a 6);
    fadd32 (lane b 5) (lane b 4); fadd32 (lane b 7) (lane b 6) ].

(** ** [batch_bool<float, 16>] *)

(** The class wraps one [__mmask16] ([batch_bool_avx512<__mmask16, ...>]);
    construction from and conversion to the mask are the identity. *)
Definition batch_bool_float_16 : Type := mmask16.

(** Modelled from the spec: [batch_bool_avx512], the base class that gives
    [batch_bool<float, 16>] its [operator[]], is declared in a header that
    is not part of the sources at hand.  The spec has each lane stored as "a
    mask bit" that means true or false for that lane: lane [i] is bit [i]
    of the mask. *)
Definition bool_lane (k : batch_bool_float_16) (i : nat) : bool :=
  Z.testbit k (Z.of_nat i).

(** ** [batch<float, 16>] *)

(** The class wraps one [__m512], [m_value]; [batch(const __m512&)] and
    [operator __m512()] are the identity. *)
Definition batch_float_16 : Type := m512.

(** [alignas(64) float x[16]]: a local array sits at a multiple of 64. *)
Definition alignas64 (slot : Z) : Z := 64 * slot.

(** [batch(const float* src)] *)
Definition batch_src (mem : gmap Z Z) (src : Z) : option batch_float_16 :=
  _mm512_loadu_ps mem src.

(** [batch(const float* src, aligned_mode)] *)
Definition batch_src_aligned_mode (mem : gmap Z Z) (src : Z) : option batch_float_16 :=
  _mm512_load_ps mem src.

(** [batch(const float* src, unaligned_mode)] *)
Definition batch_src_unaligned_mode (mem : gmap Z Z) (src : Z) : option batch_float_16 :=
  _mm512_load_ps mem src.

(** [load_aligned(const float* src)]; the batch read is the new [*this]. *)
Definition load_aligned_float (mem : gmap Z Z) (src : Z) : option batch_float_16 :=
  _mm512_load_ps mem src.

(** [load_unaligned(const float* src)] *)
Definition load_unaligned_float (mem : gmap Z Z) (src : Z) : option batch_float_16 :=
  _mm512_loadu_ps mem src.

(** [store_aligned(float* dst)] *)
Definition store_aligned_float (m_value : batch_float_16) (mem : gmap Z Z) (dst : Z)
  : option (gmap Z Z) :=
  _mm512_store_ps mem dst m_value.

(** [store_unaligned(float* dst)] *)
Definition store_unaligned_float (m_value : batch_float_16) (mem : gmap Z Z) (dst : Z)
  : option (gmap Z Z) :=
  _mm512_storeu_ps mem dst m_value.

(** [store_aligned(int32_t* dst)] *)
Definition store_aligned_int32 (rc : rounding_control) (m_value : batch_float_16)
    (mem : gmap Z Z) (dst : Z) : option (gmap Z Z) :=
  _mm512_store_si512 mem dst (_mm512_cvtps_epi32 rc m_value).

(** [store_unaligned(int32_t* dst)] *)
Definition store_unaligned_int32 (rc : rounding_control) (m_value : batch_float_16)
    (mem : gmap Z Z) (dst : Z) : option (gmap Z Z) :=
  _mm512_storeu_si512 mem dst (_mm512_cvtps_epi32 rc m_value).

(** [store_aligned(int64_t* dst)]: through the local array [tmp], then
    [dst[k] = int64_t(tmp[k])] for [k] from 0 to 15. *)
Definition store_aligned_int64 (slot : Z) (m_value : batch_float_16)
    (mem : gmap Z Z) (dst : Z) : option (gmap Z Z) :=
  let tmp := alignas64 slot in
  mem1 ← store_aligned_float m_value mem tmp;
  fold_left
    (fun acc k =>
       mem2 ← acc;
       t ← mem2 !! (tmp + 4 * Z.of_nat k);
       Some (<[dst + 8 * Z.of_nat k := scalar_to_int64 t]> mem2))
    (seq 0 16) (Some mem1).

(** [store_unaligned(int64_t* dst)] *)
Definition store_unaligned_int64 (slot : Z) (m_value : batch_float_16)
    (mem : gmap Z Z) (dst : Z) : option (gmap Z Z) :=
  store_aligned_int64 slot m_value mem dst.

(** [operator[](std::size_t index)] *)
Definition operator_index (slot : Z) (m_value : batch_float_16) (mem : gmap Z Z)
    (index : Z) : option Z :=
  let x := alignas64 slot in
  mem1 ← store_aligned_float m_value mem x;
  mem1 !! (x + 4 * Z.land index 15).

(** [operator-(rhs)] *)
Definition operator_neg (rhs : batch_float_16) : batch_float_16 :=
  _mm512_sub_ps _mm512_setzero_ps rhs.

(** [operator+(lhs, rhs)] *)
Definition operator_add (lhs rhs : batch_float_16) : batch_float_16 :=
  _mm512_add_ps lhs rhs.

(** [operator==(lhs, rhs)] *)
Definition operator_eq (lhs rhs : batch_float_16) : batch_bool_float_16 :=
  _mm512_cmp_ps_mask lhs rhs _CMP_EQ_OQ.

(** [operator!=(lhs, rhs)] *)
Definition operator_ne (lhs rhs : batch_float_16) : batch_bool_float_16 :=
  _mm512_cmp_ps_mask lhs rhs _CMP_NEQ_OQ.

(** [operator<(lhs, rhs)] *)
Definition operator_lt (lhs rhs : batch_float_16) : batch_bool_float_16 :=
  _mm512_cmp_ps_mask lhs rhs _CMP_LT_OQ.

(** [operator<=(lhs, rhs)] *)
Definition operator_le (lhs rhs : batch_float_16) : batch_bool_float_16 :=
  _mm512_cmp_ps_mask lhs rhs _CMP_LE_OQ.

(** [bitwise_andnot(lhs, rhs)] *)
Definition bitwise_andnot (lhs rhs : batch_float_16) : batch_float_16 :=
  _mm512_andnot_ps lhs rhs.

(** [XSIMD_AVX512_HADDP_STEP1(I, a, b)]: the value of [res ## I]. *)
Definition XSIMD_AVX512_HADDP_STEP1 (a b : batch_float_16) : batch_float_16 :=
  let tmp1 := _mm512_shuffle_f32x4 a b (_MM_SHUFFLE 1 0 1 0) in
  let tmp2 := _mm512_shuffle_f32x4 a b (_MM_SHUFFLE 3 2 3 2) in
  _mm512_add_ps tmp1 tmp2.

(** [XSIMD_AVX512_HADDP_STEP2(I, a, b, c, d)]: the value of [halfx ## I]. *)
Definition XSIMD_AVX512_HADDP_STEP2 (a b c d : batch_float_16) : m256 :=
  let tmp1 := _mm512_shuffle_f32x4 a b (_MM_SHUFFLE 2 0 2 0) in
  let tmp2 := _mm512_shuffle_f32x4 a b (_MM_SHUFFLE 3 1 3 1) in
  let resx1 := operator_add tmp1 tmp2 in
  let tmp3 := _mm512_shuffle_f32x4 c d (_MM_SHUFFLE 2 0 2 0) in
  let tmp4 := _mm512_shuffle_f32x4 c d (_MM_SHUFFLE 3 1 3 1) in
  let resx2 := operator_add tmp3 tmp4 in
  let tmp5 := _mm512_shuffle_ps resx1 resx2 0x00 in   (* 0b00000000 *)
  let tmp6 := _mm512_shuffle_ps resx1 resx2 0xFF in   (* 0b11111111 *)
  let resx3 := operator_add tmp5 tmp6 in
  _mm256_hadd_ps (_mm512_extractf32x8_ps resx3 0) (_mm512_extractf32x8_ps resx3 1).

(** [haddp(const batch<float, 16>* row)]; [row[k]] is [nth k row []], and
    [undefined] is what the cast leaves in the upper half of [concat]. *)
Definition haddp (undefined : m256) (row : list batch_float_16) : batch_float_16 :=
  let r k := nth k row [] in
  let res1 := XSIMD_AVX512_HADDP_STEP1 (r 0%nat) (r 4%nat) in
  let res2 := XSIMD_AVX512_HADDP_STEP1 (r 2%nat) (r 6%nat) in
  let res3 := XSIMD_AVX512_HADDP_STEP1 (r 1%nat) (r 5%nat) in
  let res4 := XSIMD_AVX512_HADDP_STEP1 (r 3%nat) (r 7%nat) in
  let res5 := XSIMD_AVX512_HADDP_STEP1 (r 8%nat) (r 12%nat) in
  let res6 := XSIMD_AVX512_HADDP_STEP1 (r 10%nat) (r 14%nat) in
  let res7 := XSIMD_AVX512_HADDP_STEP1 (r 9%nat) (r 13%nat) in
  let res8 := XSIMD_AVX512_HADDP_STEP1 (r 11%nat) (r 15%nat) in
  let halfx0 := XSIMD_AVX512_HADDP_STEP2 res1 res2 res3 res4 in
  let halfx1 := XSIMD_AVX512_HADDP_STEP2 res5 res6 res7 res8 in
  let concat := _mm512_castps256_ps512 undefined halfx0 in
  let concat := _mm512_insertf32x8 concat halfx1 1 in
  concat.

(** [select(cond, a, b)] *)
Definition select (cond : batch_bool_float_16) (a b : batch_float_16) : batch_float_16 :=
  _mm512_mask_blend_ps cond b a.

(** [isnan(x)] *)
Definition isnan (x : batch_float_16) : batch_bool_float_16 :=
  _mm512_cmp_ps_mask x x _CMP_UNORD_Q.

(** ** What the specification compares the code with *)

(** The sum of the lanes of one batch, added up from lane 0. *)
Definition sum_of_lanes (v : batch_float_16) : Z :=
  fold_left scalar_add (for_lanes 16 (lane v)) 0.

(** ** The other operations of the header *)

(** *** IEEE operations they need *)

Definition fdiv32 : Z -> Z -> Z := binop32 (SFdiv prec32 emax32).

(** Square root: a NaN operand comes back quieted, an invalid operand
    (negative and not zero) gives the default NaN. *)
Definition fsqrt32 (a : Z) : Z :=
  if is_nan a then quiet a else of_spec (SFsqrt prec32 emax32 (to_spec a)).

Definition is_zero32 (x : Z) : bool :=
  match to_spec x with
  | S754_zero _ => true
  | _ => false
  end.

(** MIN of VMINPS (Intel SDM): "IF (SRC1 = 0.0) and (SRC2 = 0.0) THEN
    DEST := SRC2; ELSE IF SRC1 = NaN THEN DEST := SRC2; ELSE IF SRC2 = NaN
    THEN DEST := SRC2; ELSE IF SRC1 < SRC2 THEN DEST := SRC1; ELSE DEST :=
    SRC2".  The operand is forwarded as it is. *)
Definition fmin32 (src1 src2 : Z) : Z :=
  if is_zero32 src1 && is_zero32 src2 then src2
  else if is_nan src1 then src2
  else if is_nan src2 then src2
  else match fcompare32 src1 src2 with
       | Some Lt => src1
       | _ => src2
       end.

(** MAX of VMAXPS: the same with "SRC1 > SRC2". *)
Definition fmax32 (src1 src2 : Z) : Z :=
  if is_zero32 src1 && is_zero32 src2 then src2
  else if is_nan src1 then src2
  else if is_nan src2 then src2
  else match fcompare32 src1 src2 with
       | Some Gt => src1
       | _ => src2
       end.

(** [a == b] of C++. *)
Definition scalar_eq (a b : Z) : bool :=
  match fcompare32 a b with
  | Some Eq => true
  | _ => false
  end.

(** Conversion of a signed integer [n] to binary32 under rounding control
    [rc]: when [n] has more than 24 significant bits, the bits below the
    24th are rounded away in direction [rc]; what is left is representable
    and [binary_normalize] encodes it exactly. *)
Definition int_to_float (rc : rounding_control) (n : Z) : Z :=
  let k := Z.max 0 (Z.log2 (Z.abs n) + 1 - 24) in
  of_spec (binary_normalize prec32 emax32 (round_quotient rc n (2 ^ k)) k false).

(** *** Further intrinsics *)

Definition _mm512_set1_ps (a : Z) : m512 := for_lanes 16 (fun _ => a).

(** "Set packed single-precision elements in dst with the supplied values
    in reverse order": the first argument is lane 0. *)
Definition _mm512_setr_ps (e0 e1 e2 e3 e4 e5 e6 e7 e8 e9 e10 e11 e12 e13 e14 e15 : Z)
  : m512 :=
  [e0; e1; e2; e3; e4; e5; e6; e7; e8; e9; e10; e11; e12; e13; e14; e15].

(** The [int] argument is stored as its 32-bit two's complement pattern. *)
Definition _mm512_set1_epi32 (a : Z) : m512i := for_lanes 16 (fun _ => a mod 2 ^ 32).

(** The casts between [__m512] and [__m512i] keep the bits. *)
Definition _mm512_castsi512_ps (a : m512i) : m512 := a.
Definition cast_m512_m512i (a : m512) : m512i := a.
Definition cast_m512i_m512 (a : m512i) : m512 := a.

Definition _mm512_loadu_si512 (mem : gmap Z Z) (p : Z) : option m512i := read16 4 mem p.

Definition _mm512_load_si512 (mem : gmap Z Z) (p : Z) : option m512i :=
  if aligned64 p then read16 4 mem p else None.

(** "Convert packed signed 32-bit integers in a to packed single-precision
    elements"; with [_MM_FROUND_CUR_DIRECTION] the rounding is the one of
    MXCSR.RC. *)
Definition _mm512_cvt_roundepi32_ps (rc : rounding_control) (a : m512i) : m512 :=
  for_lanes 16 (fun j => int_to_float rc (signed 32 (lane a j))).


Definition _mm512_div_ps (a b : m512) : m512 :=
  for_lanes 16 (fun j => fdiv32 (lane a j) (lane b j)).

Definition _mm512_sqrt_ps (a : m512) : m512 :=
  for_lanes 16 (fun j => fsqrt32 (lane a j)).

Definition _mm512_min_ps (a b : m512) : m512 :=
  for_lanes 16 (fun j => fmin32 (lane a j) (lane b j)).

Definition _mm512_max_ps (a b : m512) : m512 :=
  for_lanes 16 (fun j => fmax32 (lane a j) (lane b j)).

Definition _mm512_and_ps (a b : m512) : m512 :=
  for_lanes 16 (fun j => Z.land (lane a j) (lane b j)).

Definition _mm512_or_ps (a b : m512) : m512 :=
  for_lanes 16 (fun j => Z.lor (lane a j) (lane b j)).

Definition _mm512_xor_ps (a b : m512) : m512 :=
  for_lanes 16 (fun j => Z.lxor (lane a j) (lane b j)).

Definition _mm512_and_epi32 (a b : m512i) : m512i :=
  for_lanes 16 (fun j => Z.land (lane a j) (lane b j)).

(** *** The functions of the header *)

(** [batch(float i)] *)
Definition batch_i (i : Z) : batch_float_16 := _mm512_set1_ps i.

(** [batch(float i0, ..., float i15)] *)
Definition batch_i0_i15 (i0 i1 i2 i3 i4 i5 i6 i7 i8 i9 i10 i11 i12 i13 i14 i15 : Z)
  : batch_float_16 :=
  _mm512_setr_ps i0 i1 i2 i3 i4 i5 i6 i7 i8 i9 i10 i11 i12 i13 i14 i15.

(** [load_aligned(const int32_t* src)] *)
Definition load_aligned_int32 (rc : rounding_control) (mem : gmap Z Z) (src : Z)
  : option batch_float_16 :=
  a ← _mm512_load_si512 mem src;
  Some (_mm512_cvt_roundepi32_ps rc a).

(** [load_unaligned(const int32_t* src)] *)
Definition load_unaligned_int32 (rc : rounding_control) (mem : gmap Z Z) (src : Z)
  : option batch_float_16 :=
  a ← _mm512_loadu_si512 mem src;
  Some (_mm512_cvt_roundepi32_ps rc a).

(** [static_cast<float>(n)] of an [int64_t] (cvtsi2ss), rounded as
    MXCSR.RC says. *)
Definition scalar_of_int64 (rc : rounding_control) (p : Z) : Z :=
  int_to_float rc (signed 64 p).

(** [load_aligned(const int64_t* src)]: [tmp[k] = static_cast<float>(src[k])]
    for [k] from 0 to 15, then the aligned load of the local array. *)
Definition load_aligned_int64 (rc : rounding_control) (slot : Z) (mem : gmap Z Z) (src : Z)
  : option batch_float_16 :=
  let tmp := alignas64 slot in
  mem1 ← fold_left
           (fun acc k =>
              mem2 ← acc;
              s ← mem2 !! (src + 8 * Z.of_nat k);
              Some (<[tmp + 4 * Z.of_nat k := scalar_of_int64 rc s]> mem2))
           (seq 0 16) (Some mem);
  _mm512_load_ps mem1 tmp.

(** [load_unaligned(const int64_t* src)] *)
Definition load_unaligned_int64 (rc : rounding_control) (slot : Z) (mem : gmap Z Z) (src : Z)
  : option batch_float_16 :=
  load_aligned_int64 rc slot mem src.

(** [operator-(lhs, rhs)] *)
Definition operator_sub (lhs rhs : batch_float_16) : batch_float_16 :=
  _mm512_sub_ps lhs rhs.


(** [operator/(lhs, rhs)] *)
Definition operator_div (lhs rhs : batch_float_16) : batch_float_16 :=
  _mm512_div_ps lhs rhs.

(** [operator&(lhs, rhs)] *)
Definition operator_and (lhs rhs : batch_float_16) : batch_float_16 :=
  _mm512_and_ps lhs rhs.

(** [operator|(lhs, rhs)] *)
Definition operator_or (lhs rhs : batch_float_16) : batch_float_16 :=
  _mm512_or_ps lhs rhs.

(** [operator^(lhs, rhs)] *)
Definition operator_xor (lhs rhs : batch_float_16) : batch_float_16 :=
  _mm512_xor_ps lhs rhs.

(** [operator~(rhs)] *)
Definition operator_not (rhs : batch_float_16) : batch_float_16 :=
  _mm512_xor_ps rhs (_mm512_castsi512_ps (_mm512_set1_epi32 (-1))).

(** [min(lhs, rhs)] *)
Definition min (lhs rhs : batch_float_16) : batch_float_16 := _mm512_min_ps lhs rhs.

(** [max(lhs, rhs)] *)
Definition max (lhs rhs : batch_float_16) : batch_float_16 := _mm512_max_ps lhs rhs.

(** [fmin(lhs, rhs)] *)
Definition fmin (lhs rhs : batch_float_16) : batch_float_16 := min lhs rhs.

(** [fmax(lhs, rhs)] *)
Definition fmax (lhs rhs : batch_float_16) : batch_float_16 := max lhs rhs.

(** [abs(rhs)] *)
Definition abs (rhs : batch_float_16) : batch_float_16 :=
  cast_m512i_m512 (_mm512_and_epi32 (cast_m512_m512i rhs) (_mm512_set1_epi32 0x7fffffff)).

(** [sqrt(rhs)] *)
Definition sqrt (rhs : batch_float_16) : batch_float_16 := _mm512_sqrt_ps rhs.

(** [fabs(rhs)] *)
Definition fabs (rhs : batch_float_16) : batch_float_16 := abs rhs.

(** * Properties *)

(** ** Registers, masks and memory *)

Lemma lane_for_lanes (n : nat) (f : nat -> Z) (j : nat) :
  (j < n)%nat -> lane (for_lanes n f) j = f j.
Proof.
  intros Hj. unfold lane, for_lanes.
  rewrite (nth_indep _ 0 (f 0%nat)) by (rewrite length_map, length_seq; exact Hj).
  rewrite map_nth, seq_nth by exact Hj. reflexivity.
Qed.

Lemma for_mask_above (n : nat) (f : nat -> bool) (j : nat) :
  (n <= j)%nat -> Z.testbit (for_mask n f) (Z.of_nat j) = false.
Proof.
  induction n as [|k IH]; intros Hj; simpl.
  - apply Z.bits_0.
  - rewrite Z.lor_spec, IH by lia.
    destruct (f k); [|apply Z.bits_0].
    rewrite Z.shiftl_1_l, Z.pow2_bits_eqb by lia.
    simpl. apply Z.eqb_neq. lia.
Qed.

Lemma bool_lane_for_mask (n : nat) (f : nat -> bool) (j : nat) :
  (j < n)%nat -> bool_lane (for_mask n f) j = f j.
Proof.
  unfold bool_lane. induction n as [|k IH]; intros Hj; [lia|]. simpl.
  rewrite Z.lor_spec.
  destruct (Nat.eq_dec j k) as [->|Hne].
  - rewrite for_mask_above by lia. simpl.
    destruct (f k); [|apply Z.bits_0].
    rewrite Z.shiftl_1_l, Z.pow2_bits_eqb by lia. apply Z.eqb_refl.
  - rewrite IH by lia.
    replace (Z.testbit (if f k then Z.shiftl 1 (Z.of_nat k) else 0) (Z.of_nat j))
      with false; [apply orb_false_r|].
    destruct (f k); [|symmetry; apply Z.bits_0].
    rewrite Z.shiftl_1_l, Z.pow2_bits_eqb by lia.
    symmetry. apply Z.eqb_neq. lia.
Qed.

Section Write.
Variables (stride p : Z) (v : list Z).
Hypothesis stride_nonzero : stride <> 0.

Lemma fold_put_other (l : list nat) (mem : gmap Z Z) (q : Z) :
  (forall j, In j l -> q <> p + stride * Z.of_nat j) ->
  fold_left (put_lane stride p v) l mem !! q = mem !! q.
Proof.
  revert mem. induction l as [|a l IH]; intros mem Hq; [reflexivity|].
  simpl. rewrite IH by (intros j Hj; apply Hq; right; exact Hj).
  unfold put_lane. apply lookup_insert_ne.
  intros E. apply (Hq a); [left; reflexivity | symmetry; exact E].
Qed.

Lemma fold_put_written (l : list nat) (mem : gmap Z Z) (j : nat) :
  In j l -> fold_left (put_lane stride p v) l mem !! (p + stride * Z.of_nat j) = Some (lane v j).
Proof.
  revert mem. induction l as [|a l IH]; intros mem Hj; [destruct Hj|].
  simpl. destruct (in_dec Nat.eq_dec j l) as [Hin|Hout].
  - apply IH, Hin.
  - destruct Hj as [->|Hj]; [|contradiction].
    rewrite fold_put_other.
    + unfold put_lane. apply lookup_insert_eq.
    + intros i Hi E. apply Hout.
      assert (Z.of_nat j = Z.of_nat i) as E' by (apply (Z.mul_reg_l _ _ stride); lia).
      apply Nat2Z.inj in E'. subst i. exact Hi.
Qed.

Lemma write16_lookup (mem : gmap Z Z) (j : nat) :
  (j < 16)%nat -> write16 stride mem p v !! (p + stride * Z.of_nat j) = Some (lane v j).
Proof.
  intros Hj. unfold write16. apply fold_put_written. apply in_seq. lia.
Qed.
End Write.

Lemma aligned64_alignas64 (slot : Z) : aligned64 (alignas64 slot) = true.
Proof.
  unfold aligned64, alignas64. rewrite Z.mul_comm, Z.mod_mul by lia. reflexivity.
Qed.

Lemma store_aligned_float_local (slot : Z) (b : batch_float_16) (mem : gmap Z Z) :
  store_aligned_float b mem (alignas64 slot) = Some (write16 4 mem (alignas64 slot) b).
Proof.
  unfold store_aligned_float, _mm512_store_ps. rewrite aligned64_alignas64. reflexivity.
Qed.

(** ** Lane extraction *)

(** C8: [b[k]] is the lane of [b] at [k] modulo 16, for every index [k]; an
    index of 16 or more is wrapped, and the access never fails. *)
Theorem operator_index_wraps (slot : Z) (b : batch_float_16) (mem : gmap Z Z) (k : Z) :
  operator_index slot b mem k = Some (lane b (Z.to_nat (k mod 16))).
Proof.
  unfold operator_index. rewrite store_aligned_float_local. simpl.
  change 15 with (Z.ones 4). rewrite Z.land_ones by lia.
  change (2 ^ 4) with 16.
  assert (0 <= k mod 16 < 16) as Hr by (apply Z.mod_pos_bound; lia).
  rewrite <- (Z2Nat.id (k mod 16)) at 1 by lia.
  apply write16_lookup; lia.
Qed.

(** ** Comparisons *)

Lemma cmp_ps_mask_lane (a b : m512) (imm8 : Z) (i : nat) :
  (i < 16)%nat ->
  bool_lane (_mm512_cmp_ps_mask a b imm8) i
  = cmp_predicate imm8 (fcompare32 (lane a i) (lane b i)).
Proof. intros Hi. unfold _mm512_cmp_ps_mask. apply bool_lane_for_mask, Hi. Qed.

Lemma to_spec_nan (x : Z) : is_nan x = true <-> to_spec x = S754_nan.
Proof.
  unfold is_nan, to_spec.
  destruct (biased_exp x =? 255); cbn [andb].
  - destruct (fraction x =? 0); cbn [negb]; split; congruence.
  - destruct (biased_exp x =? 0); [destruct (fraction x)|]; split; congruence.
Qed.

Lemma fcompare32_nan_l (a b : Z) : is_nan a = true -> fcompare32 a b = None.
Proof.
  intros H. apply to_spec_nan in H. unfold fcompare32. rewrite H. reflexivity.
Qed.

Lemma fcompare32_nan_r (a b : Z) : is_nan b = true -> fcompare32 a b = None.
Proof.
  intros H. apply to_spec_nan in H. unfold fcompare32. rewrite H.
  destruct (to_spec a); reflexivity.
Qed.

Lemma SFcompare_ordered (x y : spec_float) :
  x <> S754_nan -> y <> S754_nan -> SFcompare x y <> None.
Proof. destruct x, y; simpl; congruence. Qed.

Lemma fcompare32_unordered (a b : Z) :
  fcompare32 a b = None <-> is_nan a = true \/ is_nan b = true.
Proof.
  split.
  - intros H. destruct (is_nan a) eqn:Ha; [left; reflexivity|].
    destruct (is_nan b) eqn:Hb; [right; reflexivity|]. exfalso.
    revert H. apply SFcompare_ordered; intros E; apply to_spec_nan in E; congruence.
  - intros [H|H]; [apply fcompare32_nan_l | apply fcompare32_nan_r]; exact H.
Qed.

(** C9: lane [i] of [a < b] is the ordered less-than of the two lanes: the
    scalar [a[i] < b[i]], and false as soon as one of them is a NaN. *)
Theorem operator_lt_ordered (a b : batch_float_16) (i : nat) :
  (i < 16)%nat ->
  bool_lane (operator_lt a b) i = scalar_lt (lane a i) (lane b i) /\
  (is_nan (lane a i) = true \/ is_nan (lane b i) = true ->
   bool_lane (operator_lt a b) i = false).
Proof.
  intros Hi. unfold operator_lt. rewrite cmp_ps_mask_lane by exact Hi.
  unfold scalar_lt. split.
  - destruct (fcompare32 (lane a i) (lane b i)) as [[]|]; reflexivity.
  - intros Hnan. apply fcompare32_unordered in Hnan. rewrite Hnan. reflexivity.
Qed.

Lemma operator_lt_ordered_witness :
  (0 < 16)%nat /\
  bool_lane (operator_lt [0x3F800000; 0x7FC00000] [0x40000000; 0]) 0
  = scalar_lt 0x3F800000 0x40000000.
Proof.
  split; [lia|].
  exact (proj1 (operator_lt_ordered [0x3F800000; 0x7FC00000] [0x40000000; 0] 0
                  ltac:(lia))).
Defined.

(** C4, as the code has it: on a lane where an operand is a NaN,
    [operator!=] answers false, where the scalar [a[i] != b[i]] is true. *)
Theorem operator_ne_nan (a b : batch_float_16) (i : nat) :
  (i < 16)%nat ->
  is_nan (lane a i) = true \/ is_nan (lane b i) = true ->
  bool_lane (operator_ne a b) i = false /\
  scalar_ne (lane a i) (lane b i) = true.
Proof.
  intros Hi Hnan. unfold operator_ne. rewrite cmp_ps_mask_lane by exact Hi.
  unfold scalar_ne. apply fcompare32_unordered in Hnan. rewrite Hnan.
  split; reflexivity.
Qed.

Lemma operator_ne_nan_witness :
  let a := for_lanes 16 (fun _ => 0x7FC00000) in
  let b := for_lanes 16 (fun _ => 0x3F800000) in
  bool_lane (operator_ne a b) 0 = false /\ scalar_ne (lane a 0) (lane b 0) = true.
Proof.
  intros a b. apply (operator_ne_nan a b 0); [lia | left; reflexivity].
Defined.

(** On ordered lanes [operator!=] and the scalar operator agree. *)
Lemma operator_ne_ordered (a b : batch_float_16) (i : nat) :
  (i < 16)%nat ->
  is_nan (lane a i) = false -> is_nan (lane b i) = false ->
  bool_lane (operator_ne a b) i = scalar_ne (lane a i) (lane b i).
Proof.
  intros Hi Ha Hb. unfold operator_ne. rewrite cmp_ps_mask_lane by exact Hi.
  unfold scalar_ne.
  destruct (fcompare32 (lane a i) (lane b i)) as [[]|] eqn:E; try reflexivity.
  apply fcompare32_unordered in E. destruct E; congruence.
Qed.

(** With the unordered predicate, [_CMP_NEQ_UQ], the mask is the scalar
    [!=] on every lane. *)
Lemma cmp_neq_uq_scalar (a b : m512) (i : nat) :
  (i < 16)%nat ->
  bool_lane (_mm512_cmp_ps_mask a b _CMP_NEQ_UQ) i = scalar_ne (lane a i) (lane b i).
Proof.
  intros Hi. rewrite cmp_ps_mask_lane by exact Hi. unfold scalar_ne.
  destruct (fcompare32 (lane a i) (lane b i)) as [[]|]; reflexivity.
Qed.

(** C7: lane [i] of [isnan(x)] is true exactly when [x[i]] is a NaN,
    whatever the other lanes hold. *)
Theorem isnan_lane (x : batch_float_16) (i : nat) :
  (i < 16)%nat -> bool_lane (isnan x) i = is_nan (lane x i).
Proof.
  intros Hi. unfold isnan. rewrite cmp_ps_mask_lane by exact Hi.
  destruct (fcompare32 (lane x i) (lane x i)) as [c|] eqn:E.
  - destruct (is_nan (lane x i)) eqn:Hn.
    + rewrite fcompare32_nan_l in E by exact Hn. discriminate.
    + assert (c = Eq) as ->; [|reflexivity].
      unfold fcompare32 in E.
      destruct (to_spec (lane x i)) as [s|s| |s m e]; simpl in E; try discriminate.
      * congruence.
      * destruct s; congruence.
      * rewrite Z.compare_refl, Pos.compare_cont_refl in E.
        destruct s; simpl in E; congruence.
  - apply fcompare32_unordered in E. destruct E as [E|E]; rewrite E; reflexivity.
Qed.

Lemma isnan_lane_witness :
  let x := [0x3F800000; 0x7FC00000; 0; 0xFF800001] in
  (1 < 16)%nat /\ bool_lane (isnan x) 1 = true /\ bool_lane (isnan x) 2 = false.
Proof.
  intros x. split; [lia|]. split.
  - exact (isnan_lane x 1 ltac:(lia)).
  - exact (isnan_lane x 2 ltac:(lia)).
Defined.

(** ** Blend and bitwise operations *)

(** C6: lane [i] of [select(cond, a, b)] is [a[i]] where [cond[i]] is true
    and [b[i]] where it is false. *)
Theorem select_lane (cond : batch_bool_float_16) (a b : batch_float_16) (i : nat) :
  (i < 16)%nat ->
  lane (select cond a b) i = if bool_lane cond i then lane a i else lane b i.
Proof.
  intros Hi. unfold select, _mm512_mask_blend_ps.
  rewrite lane_for_lanes by exact Hi. reflexivity.
Qed.

Lemma select_lane_witness :
  (1 < 16)%nat /\ lane (select 0x0001 [1; 2; 3; 4] [9; 9; 9; 9]) 1 = 9.
Proof.
  split; [lia|]. exact (select_lane 0x0001 [1; 2; 3; 4] [9; 9; 9; 9] 1 ltac:(lia)).
Defined.

(** C10: bit [j] of lane [i] of [bitwise_andnot(lhs, rhs)] is
    [(NOT lhs[i]) AND rhs[i]] at that bit: the first operand is the one
    that is complemented. *)
Theorem bitwise_andnot_bits (lhs rhs : batch_float_16) (i : nat) (j : Z) :
  (i < 16)%nat -> 0 <= j < 32 ->
  Z.testbit (lane (bitwise_andnot lhs rhs) i) j
  = negb (Z.testbit (lane lhs i) j) && Z.testbit (lane rhs i) j.
Proof.
  intros Hi Hj. unfold bitwise_andnot, _mm512_andnot_ps.
  rewrite lane_for_lanes by exact Hi.
  rewrite Z.land_spec, Z.lxor_spec.
  change 0xFFFFFFFF with (Z.ones 32).
  rewrite Z.ones_spec_low by lia.
  rewrite xorb_true_r. reflexivity.
Qed.

Lemma bitwise_andnot_bits_witness :
  (0 < 16)%nat /\ 0 <= 31 < 32 /\
  Z.testbit (lane (bitwise_andnot [0x80000000] [0xBF800000]) 0) 31 = false.
Proof.
  split; [lia|]. split; [lia|].
  exact (bitwise_andnot_bits [0x80000000] [0xBF800000] 0 31 ltac:(lia) ltac:(lia)).
Defined.

(** ** Negation *)

Lemma fraction_mod (x : Z) : fraction x = x mod 2 ^ 23.
Proof.
  unfold fraction. change 0x7FFFFF with (Z.ones 23). apply Z.land_ones. lia.
Qed.

Lemma biased_exp_mod (x : Z) : biased_exp x = (x / 2 ^ 23) mod 2 ^ 8.
Proof.
  unfold biased_exp. change 255 with (Z.ones 8).
  rewrite Z.land_ones, Z.shiftr_div_pow2 by lia. reflexivity.
Qed.

Lemma sign_of_high (x : Z) : 0 <= x < 2 ^ 32 -> sign_of x = (2 ^ 31 <=? x).
Proof.
  intros Hx. unfold sign_of.
  assert (x / 2 ^ 31 = if 2 ^ 31 <=? x then 1 else 0) as Hq.
  { destruct (Z.leb_spec (2 ^ 31) x).
    - symmetry. apply (Z.div_unique x (2 ^ 31) 1 (x - 2 ^ 31)); lia.
    - apply Z.div_small. lia. }
  destruct (Z.testbit x 31) eqn:Hb.
  - apply Z.testbit_true in Hb; [|lia]. rewrite Hq in Hb.
    destruct (2 ^ 31 <=? x); [reflexivity | discriminate].
  - apply Z.testbit_false in Hb; [|lia]. rewrite Hq in Hb.
    destruct (2 ^ 31 <=? x); [discriminate | reflexivity].
Qed.

(** A 32-bit pattern is its three fields put side by side. *)
Lemma fields (x : Z) :
  0 <= x < 2 ^ 32 ->
  x = sign_bit (sign_of x) + biased_exp x * 2 ^ 23 + fraction x /\
  0 <= biased_exp x < 2 ^ 8 /\ 0 <= fraction x < 2 ^ 23.
Proof.
  intros Hx. rewrite sign_of_high, fraction_mod, biased_exp_mod by exact Hx.
  pose proof (Z.div_mod x (2 ^ 23) ltac:(lia)) as H1.
  pose proof (Z.mod_pos_bound x (2 ^ 23) ltac:(lia)) as H2.
  pose proof (Z.div_mod (x / 2 ^ 23) (2 ^ 8) ltac:(lia)) as H3.
  pose proof (Z.mod_pos_bound (x / 2 ^ 23) (2 ^ 8) ltac:(lia)) as H4.
  rewrite Z.div_div in H3 by lia. change (2 ^ 23 * 2 ^ 8) with (2 ^ 31) in H3.
  assert (x / 2 ^ 31 = if 2 ^ 31 <=? x then 1 else 0) as Hq.
  { destruct (Z.leb_spec (2 ^ 31) x).
    - symmetry. apply (Z.div_unique x (2 ^ 31) 1 (x - 2 ^ 31)); lia.
    - apply Z.div_small. lia. }
  rewrite Hq in H3. unfold sign_bit.
  destruct (2 ^ 31 <=? x); repeat split; lia.
Qed.

Lemma land_low_high (y : Z) : 0 <= y < 2 ^ 31 -> Z.land y (2 ^ 31) = 0.
Proof.
  intros Hy. rewrite <- (Z.mod_small y (2 ^ 31)) by lia.
  rewrite <- Z.land_ones by lia.
  rewrite <- Z.land_assoc. change (Z.land (Z.ones 31) (2 ^ 31)) with 0.
  apply Z.land_0_r.
Qed.

(** Flipping bit 31 changes the sign field and nothing else. *)
Lemma scalar_neg_fields (x : Z) :
  0 <= x < 2 ^ 32 ->
  scalar_neg x = sign_bit (negb (sign_of x)) + biased_exp x * 2 ^ 23 + fraction x.
Proof.
  intros Hx. destruct (fields x Hx) as (Hd & _ & _).
  rewrite sign_of_high in * by exact Hx.
  unfold scalar_neg. change 0x80000000 with (2 ^ 31).
  destruct (Z.leb_spec (2 ^ 31) x) as [Hge|Hlt]; simpl in *.
  - assert (Z.lxor (x - 2 ^ 31) (2 ^ 31) = x) as E.
    { rewrite <- Z.add_nocarry_lxor by (apply land_low_high; lia). lia. }
    rewrite <- E at 1.
    rewrite Z.lxor_assoc, Z.lxor_nilpotent, Z.lxor_0_r. lia.
  - rewrite <- Z.add_nocarry_lxor by (apply land_low_high; lia). lia.
Qed.

Lemma fsub32_zero_nan (x : Z) : is_nan x = true -> fsub32 0 x = quiet x.
Proof. intros H. unfold fsub32, binop32. rewrite H. reflexivity. Qed.

(** [(+0.0) - x] for an [x] that is neither [+0.0] nor a NaN. *)
Lemma fsub32_zero_neg (x : Z) :
  0 <= x < 2 ^ 32 -> is_nan x = false -> x <> 0 ->
  fsub32 0 x = scalar_neg x.
Proof.
  intros Hx Hn H0. rewrite scalar_neg_fields by exact Hx.
  destruct (fields x Hx) as (Hd & He & Hf).
  unfold fsub32, binop32. rewrite Hn. change (is_nan 0) with false. cbv iota.
  change (to_spec 0) with (S754_zero false).
  unfold is_nan in Hn. unfold to_spec.
  destruct (Z.eqb_spec (biased_exp x) 255) as [E255|N255].
  - destruct (Z.eqb_spec (fraction x) 0) as [F0|F0]; [|discriminate].
    simpl. rewrite E255, F0. lia.
  - destruct (Z.eqb_spec (biased_exp x) 0) as [E0|N0].
    + destruct (fraction x) as [|m|m] eqn:F.
      * destruct (sign_of x); simpl in *; [rewrite E0; reflexivity | lia].
      * simpl. destruct (Z.ltb_spec (Z.pos m) 0x800000); [rewrite E0; lia | lia].
      * lia.
    + simpl.
      rewrite Z2Pos.id by lia.
      destruct (Z.ltb_spec (fraction x + 0x800000) 0x800000); lia.
Qed.

(** C3, amended: lane [i] of [-x] is [(+0.0) - x[i]].  It is bit-identical
    to the scalar negation of [x[i]] unless [x[i]] is [+0.0] or a NaN; on
    [+0.0] it is [+0.0], and a NaN comes back quieted with its sign kept. *)
Theorem operator_neg_lane (x : batch_float_16) (i : nat) :
  (i < 16)%nat -> 0 <= lane x i < 2 ^ 32 ->
  lane (operator_neg x) i = fsub32 0 (lane x i) /\
  (is_nan (lane x i) = false -> lane x i <> 0 ->
   lane (operator_neg x) i = scalar_neg (lane x i)) /\
  (lane x i = 0 -> lane (operator_neg x) i = 0) /\
  (is_nan (lane x i) = true -> lane (operator_neg x) i = quiet (lane x i)).
Proof.
  intros Hi Hx.
  assert (lane (operator_neg x) i = fsub32 0 (lane x i)) as E.
  { unfold operator_neg, _mm512_sub_ps. rewrite lane_for_lanes by exact Hi.
    unfold _mm512_setzero_ps. rewrite lane_for_lanes by exact Hi. reflexivity. }
  rewrite E. repeat split.
  - intros Hn H0. apply fsub32_zero_neg; assumption.
  - intros ->. reflexivity.
  - apply fsub32_zero_nan.
Qed.

Lemma operator_neg_lane_witness :
  let x := [0x3F800000; 0x80000000; 0; 0x7FA00000] in
  (1 < 16)%nat /\ 0 <= lane x 1 < 2 ^ 32 /\
  lane (operator_neg x) 1 = fsub32 0 (lane x 1).
Proof.
  intros x.
  assert (0 <= lane x 1 < 2 ^ 32) as Hx by (unfold x, lane; simpl; lia).
  split; [lia|]. split; [exact Hx|].
  exact (proj1 (operator_neg_lane x 1 ltac:(lia) Hx)).
Defined.

(** C3, as stated, fails on a lane that holds [+0.0]: the code returns
    [+0.0], the scalar negation is [-0.0]. *)
Lemma operator_neg_not_scalar_neg :
  ~ (forall (x : batch_float_16) (i : nat),
        (i < 16)%nat -> 0 <= lane x i < 2 ^ 32 ->
        lane (operator_neg x) i = scalar_neg (lane x i)).
Proof.
  intros H.
  specialize (H (for_lanes 16 (fun _ => 0)) 0%nat ltac:(lia) ltac:(unfold lane; simpl; lia)).
  vm_compute in H. discriminate H.
Qed.

(** A NaN lane differs as well: the sign bit is kept, not flipped. *)
Example operator_neg_nan :
  lane (operator_neg [0x7FC00000]) 0 = 0x7FC00000 /\ scalar_neg 0x7FC00000 = 0xFFC00000.
Proof. split; reflexivity. Qed.

(** ** Loads *)

Lemma load_ps_misaligned (mem : gmap Z Z) (p : Z) :
  p mod 64 <> 0 -> _mm512_load_ps mem p = None.
Proof.
  intros Hp. unfold _mm512_load_ps, aligned64.
  destruct (Z.eqb_spec (p mod 64) 0); [contradiction | reflexivity].
Qed.

Lemma load_ps_aligned (mem : gmap Z Z) (p : Z) :
  p mod 64 = 0 -> _mm512_load_ps mem p = _mm512_loadu_ps mem p.
Proof.
  intros Hp. unfold _mm512_load_ps, _mm512_loadu_ps, aligned64.
  rewrite Hp. reflexivity.
Qed.

(** C1, as the code has it: when [src] is not a multiple of 64 and the
    sixteen floats at [src] are readable, [batch(src)] and
    [load_unaligned(src)] read them, but [batch(src, unaligned_mode)]
    faults, because it goes through the aligned load. *)
Theorem batch_src_unaligned_mode_faults (mem : gmap Z Z) (src : Z) (v : batch_float_16) :
  src mod 64 <> 0 ->
  batch_src mem src = Some v ->
  load_unaligned_float mem src = Some v /\
  batch_src_unaligned_mode mem src = None.
Proof.
  intros Hsrc Hv. split; [exact Hv|].
  unfold batch_src_unaligned_mode. apply load_ps_misaligned, Hsrc.
Qed.

Lemma batch_src_unaligned_mode_faults_witness :
  let v := for_lanes 16 (fun j => 0x3F800000 + Z.of_nat j) in
  let mem := write16 4 ∅ 4 v in
  load_unaligned_float mem 4 = Some v /\ batch_src_unaligned_mode mem 4 = None.
Proof.
  intros v mem.
  apply (batch_src_unaligned_mode_faults mem 4 v); [discriminate | reflexivity].
Defined.

(** On a pointer that is a multiple of 64 the three paths agree. *)
Lemma batch_src_unaligned_mode_aligned (mem : gmap Z Z) (src : Z) :
  src mod 64 = 0 ->
  batch_src_unaligned_mode mem src = batch_src mem src /\
  batch_src_unaligned_mode mem src = load_unaligned_float mem src.
Proof.
  intros Hsrc. unfold batch_src_unaligned_mode, batch_src, load_unaligned_float.
  rewrite load_ps_aligned by exact Hsrc. split; reflexivity.
Qed.

(** ** Stores to integers *)

Lemma store_aligned_int32_lane (rc : rounding_control) (b : batch_float_16)
    (mem mem' : gmap Z Z) (dst : Z) (i : nat) :
  (i < 16)%nat ->
  store_aligned_int32 rc b mem dst = Some mem' ->
  mem' !! (dst + 4 * Z.of_nat i) = Some (float_to_int 32 rc (lane b i)).
Proof.
  intros Hi. unfold store_aligned_int32, _mm512_store_si512.
  destruct (aligned64 dst); [|discriminate].
  intros [= <-]. rewrite write16_lookup by lia.
  unfold _mm512_cvtps_epi32. rewrite lane_for_lanes by exact Hi. reflexivity.
Qed.

Lemma store_unaligned_int32_lane (rc : rounding_control) (b : batch_float_16)
    (mem mem' : gmap Z Z) (dst : Z) (i : nat) :
  (i < 16)%nat ->
  store_unaligned_int32 rc b mem dst = Some mem' ->
  mem' !! (dst + 4 * Z.of_nat i) = Some (float_to_int 32 rc (lane b i)).
Proof.
  intros Hi. unfold store_unaligned_int32, _mm512_storeu_si512.
  intros [= <-]. rewrite write16_lookup by lia.
  unfold _mm512_cvtps_epi32. rewrite lane_for_lanes by exact Hi. reflexivity.
Qed.

Lemma signed_mod (w n : Z) :
  0 < w -> - 2 ^ (w - 1) <= n < 2 ^ (w - 1) -> signed w (n mod 2 ^ w) = n.
Proof.
  intros Hw Hn. unfold signed.
  assert (2 ^ w = 2 * 2 ^ (w - 1)) as E.
  { rewrite <- Z.pow_succ_r by lia. f_equal. lia. }
  rewrite Z.mod_mod by lia.
  destruct (Z_lt_le_dec n 0) as [Hneg|Hpos].
  - assert (n mod 2 ^ w = n + 2 ^ w) as ->.
    { symmetry. apply (Z.mod_unique n (2 ^ w) (-1)); lia. }
    destruct (Z.ltb_spec (n + 2 ^ w) (2 ^ (w - 1))); lia.
  - rewrite Z.mod_small by lia.
    destruct (Z.ltb_spec n (2 ^ (w - 1))); lia.
Qed.

(** With the rounding control set to "toward zero", the conversion is the
    truncation of the value, whenever that fits the integer type; this is
    what [int64_t(f)] does. *)
Lemma float_to_int_zero_truncation (w x n : Z) :
  0 < w ->
  truncation_toward_zero x = Some n ->
  - 2 ^ (w - 1) <= n < 2 ^ (w - 1) ->
  signed w (float_to_int w RC_zero x) = n.
Proof.
  intros Hw Ht Hn. unfold truncation_toward_zero in Ht. unfold float_to_int.
  destruct (to_spec x) as [s|s| |s m e]; try discriminate.
  - injection Ht as <-. apply (signed_mod w 0 Hw Hn).
  - injection Ht as Ht.
    assert (round_to_integer RC_zero s m e = n) as ->.
    { unfold round_to_integer, round_quotient. exact Ht. }
    destruct (Z.leb_spec (- 2 ^ (w - 1)) n); [|lia].
    destruct (Z.ltb_spec n (2 ^ (w - 1))); [|lia].
    cbn [andb]. apply signed_mod; assumption.
Qed.

(** C2, as the code has it: with the rounding control at its default, a
    lane holding [1.5f] is stored as 2 by both [int32_t] stores, where
    truncation toward zero gives 1; the [int64_t] store of the same batch
    writes 1. *)
Theorem store_int32_rounds_to_nearest :
  let b := for_lanes 16 (fun _ => 0x3FC00000) in
  truncation_toward_zero 0x3FC00000 = Some 1 /\
  (store_aligned_int32 RC_nearest b ∅ 0 ≫= lookup 0) = Some 2 /\
  (store_unaligned_int32 RC_nearest b ∅ 4 ≫= lookup 4) = Some 2 /\
  (store_aligned_int64 16 b ∅ 0 ≫= lookup 0) = Some 1.
Proof. vm_compute. repeat split; reflexivity. Qed.

(** ** Sums of rows *)

(** What [haddp] leaves in lane [i]: of row [i], only the lanes 0, 3, 4,
    7, 8, 11, 12 and 15 are added up, and that sum is added to itself. *)
Lemma haddp_lane (undefined : m256) (row : list batch_float_16) (i : nat) :
  (i < 16)%nat ->
  lane (haddp undefined row) i =
    let r := lane (nth i row []) in
    let s j := fadd32 (fadd32 (r j) (r (j + 8)%nat)) (fadd32 (r (j + 4)%nat) (r (j + 12)%nat)) in
    let x := fadd32 (s 0%nat) (s 3%nat) in
    fadd32 x x.
Proof.
  intros Hi.
  do 16 (destruct i as [|i]; [cbv -[fadd32]; reflexivity|]). lia.
Qed.

(** C5, as the code has it: when row 0 is [1.0] in lane 0 and [+0.0]
    elsewhere, and the other rows are zero, lane 0 of [haddp] is [2.0],
    where the sum of the lanes of row 0 is [1.0]. *)
Theorem haddp_not_row_sum (undefined : m256) :
  let row0 := for_lanes 16 (fun j => if (j =? 0)%nat then 0x3F800000 else 0) in
  let row := row0 :: repeat (for_lanes 16 (fun _ => 0)) 15 in
  sum_of_lanes (nth 0 row []) = 0x3F800000 /\
  lane (haddp undefined row) 0 = 0x40000000.
Proof.
  intros row0 row. split; [reflexivity|].
  rewrite haddp_lane by lia. reflexivity.
Qed.

(** ** Worked examples *)

(** [1.0f + 1.0f] is [2.0f]; the sum is rounded to nearest even. *)
Example fadd32_examples :
  fadd32 0x3F800000 0x3F800000 = 0x40000000 /\
  fadd32 0x3F800001 0x33800000 = 0x3F800002 /\
  fadd32 0x7F800000 0xFF800000 = QNaN_indefinite.
Proof. repeat split; reflexivity. Qed.

(** [(1, 2, 3, 4) < (2, 2, 2, 2)] is [(true, false, false, false)], and the
    blend of [(1, 2, 3, 4)] and [(9, 9, 9, 9)] under it is [(1, 9, 9, 9)]. *)
Example compare_then_select :
  let a := [0x3F800000; 0x40000000; 0x40400000; 0x40800000] in
  let b := [0x40000000; 0x40000000; 0x40000000; 0x40000000] in
  let c := [0x41100000; 0x41100000; 0x41100000; 0x41100000] in
  map (bool_lane (operator_lt a b)) (seq 0 4) = [true; false; false; false] /\
  firstn 4 (select (operator_lt a b) a c)
  = [0x3F800000; 0x41100000; 0x41100000; 0x41100000].
Proof. split; reflexivity. Qed.

(** On sixteen rows of sixteen [1.0f], [haddp] returns [16.0f] in every
    lane. *)
Example haddp_all_ones (undefined : m256) :
  haddp undefined (repeat (for_lanes 16 (fun _ => 0x3F800000)) 16)
  = for_lanes 16 (fun _ => 0x41800000).
Proof. reflexivity. Qed.

(** * Properties of the other operations *)

(** ** Memory round trips *)

Lemma mapM_pointwise {A B : Type} (f : A -> option B) (g : A -> B) (l : list A) :
  (forall x, In x l -> f x = Some (g x)) -> mapM f l = Some (map g l).
Proof.
  induction l as [|a l IH]; intros H; [reflexivity|].
  simpl. rewrite (H a) by (left; reflexivity). simpl.
  rewrite IH by (intros x Hx; apply H; right; exact Hx). reflexivity.
Qed.

Lemma mapM_nth {A : Type} (f : A -> option Z) (l : list A) (v : list Z) (d : A) (i : nat) :
  mapM f l = Some v -> (i < length l)%nat -> f (nth i l d) = Some (nth i v 0).
Proof.
  revert v i. induction l as [|a l IH]; intros v i H Hi; [simpl in Hi; lia|].
  simpl in H. destruct (f a) as [y|] eqn:Ea; [|discriminate]. simpl in H.
  destruct (mapM f l) as [k|] eqn:El; [|discriminate]. simpl in H.
  injection H as <-. destruct i as [|i]; [exact Ea|].
  simpl. apply IH; [reflexivity | simpl in Hi; lia].
Qed.

Lemma mapM_Some_length {A B : Type} (f : A -> option B) (l : list A) (v : list B) :
  mapM f l = Some v -> length v = length l.
Proof.
  revert v. induction l as [|a l IH]; intros v H.
  - injection H as <-. reflexivity.
  - simpl in H. destruct (f a); [|discriminate]. simpl in H.
    destruct (mapM f l) as [k|]; [|discriminate]. simpl in H.
    injection H as <-. simpl. f_equal. apply IH. reflexivity.
Qed.

Lemma read16_lane (stride : Z) (mem : gmap Z Z) (p : Z) (v : list Z) (j : nat) :
  read16 stride mem p = Some v -> (j < 16)%nat ->
  mem !! (p + stride * Z.of_nat j) = Some (lane v j).
Proof.
  intros H Hj. unfold read16 in H.
  pose proof (mapM_nth _ _ _ 0%nat j H) as E. cbv beta in E.
  rewrite length_seq, seq_nth in E by exact Hj. apply E. exact Hj.
Qed.

Lemma read16_length (stride : Z) (mem : gmap Z Z) (p : Z) (v : list Z) :
  read16 stride mem p = Some v -> length v = 16%nat.
Proof. intros H. apply mapM_Some_length in H. exact H. Qed.

Lemma for_lanes_lane (v : list Z) : length v = 16%nat -> for_lanes 16 (lane v) = v.
Proof.
  intros Hv. apply (nth_ext _ _ 0 0).
  - unfold for_lanes. rewrite length_map, length_seq. symmetry. exact Hv.
  - intros n Hn. unfold for_lanes in Hn. rewrite length_map, length_seq in Hn.
    apply (lane_for_lanes 16 (lane v) n Hn).
Qed.

Lemma read16_write16 (stride : Z) (mem : gmap Z Z) (p : Z) (v : list Z) :
  stride <> 0 -> read16 stride (write16 stride mem p v) p = Some (for_lanes 16 (lane v)).
Proof.
  intros Hs. unfold read16, for_lanes. apply mapM_pointwise.
  intros j Hj. apply in_seq in Hj. apply write16_lookup; [exact Hs | lia].
Qed.


Lemma operator_index_value (slot : Z) (b : batch_float_16) (mem : gmap Z Z) (k : Z) :
  operator_index slot b mem k = Some (lane b (Z.to_nat (k mod 16))).
Proof.
  unfold operator_index. rewrite store_aligned_float_local. simpl.
  change 15 with (Z.ones 4). rewrite Z.land_ones by lia.
  change (2 ^ 4) with 16.
  assert (0 <= k mod 16 < 16) as Hr by (apply Z.mod_pos_bound; lia).
  rewrite <- (Z2Nat.id (k mod 16)) at 1 by lia.
  apply write16_lookup; lia.
Qed.

(** X1: a batch of sixteen lanes stored with [store_unaligned(float* dst)] and
    read back from the same address, with [load_unaligned] or with the
    pointer constructor, is the same batch, at every address. *)
Theorem store_load_unaligned_float (b : batch_float_16) (mem : gmap Z Z) (dst : Z) :
  length b = 16%nat ->
  (store_unaligned_float b mem dst ≫= fun mem' => load_unaligned_float mem' dst) = Some b /\
  (store_unaligned_float b mem dst ≫= fun mem' => batch_src mem' dst) = Some b.
Proof.
  intros Hb. unfold store_unaligned_float, _mm512_storeu_ps, load_unaligned_float,
    batch_src, _mm512_loadu_ps. simpl.
  rewrite read16_write16 by lia. rewrite for_lanes_lane by exact Hb.
  split; reflexivity.
Qed.

Lemma store_load_unaligned_float_witness :
  let b := for_lanes 16 (fun j => 0x3F800000 + Z.of_nat j) in
  (store_unaligned_float b ∅ 4 ≫= fun mem' => load_unaligned_float mem' 4) = Some b.
Proof.
  intros b. exact (proj1 (store_load_unaligned_float b ∅ 4 eq_refl)).
Defined.

(** X2: on an address that is a multiple of 64, [store_aligned(float* dst)]
    followed by [load_aligned], or by the [aligned_mode] constructor, gives
    the batch back. *)
Theorem store_load_aligned_float (b : batch_float_16) (mem : gmap Z Z) (dst : Z) :
  length b = 16%nat -> dst mod 64 = 0 ->
  (store_aligned_float b mem dst ≫= fun mem' => load_aligned_float mem' dst) = Some b /\
  (store_aligned_float b mem dst ≫= fun mem' => batch_src_aligned_mode mem' dst) = Some b.
Proof.
  intros Hb Hd. unfold store_aligned_float, _mm512_store_ps, load_aligned_float,
    batch_src_aligned_mode, _mm512_load_ps, aligned64.
  rewrite Hd. simpl.
  rewrite read16_write16 by lia. rewrite for_lanes_lane by exact Hb.
  split; reflexivity.
Qed.

Lemma store_load_aligned_float_witness :
  let b := for_lanes 16 (fun j => 0x3F800000 + Z.of_nat j) in
  (store_aligned_float b ∅ 128 ≫= fun mem' => load_aligned_float mem' 128) = Some b.
Proof.
  intros b. exact (proj1 (store_load_aligned_float b ∅ 128 eq_refl eq_refl)).
Defined.



(** X4: indexing a batch that was loaded from [src] reads memory: [b[k]]
    is the float at [src + 4 * (k mod 16)]. *)
Theorem operator_index_of_load (slot : Z) (mem mem2 : gmap Z Z) (src : Z)
    (b : batch_float_16) (k : Z) :
  batch_src mem src = Some b ->
  operator_index slot b mem2 k = mem !! (src + 4 * (k mod 16)).
Proof.
  intros Hb. rewrite operator_index_value.
  assert (0 <= k mod 16 < 16) as Hr by (apply Z.mod_pos_bound; lia).
  unfold batch_src, _mm512_loadu_ps in Hb.
  rewrite <- (read16_lane 4 mem src b (Z.to_nat (k mod 16)) Hb) by lia.
  rewrite Z2Nat.id by lia. reflexivity.
Qed.

Lemma operator_index_of_load_witness :
  let mem := write16 4 ∅ 4 (for_lanes 16 (fun j => 0x3F800000 + Z.of_nat j)) in
  operator_index 0 (for_lanes 16 (fun j => 0x3F800000 + Z.of_nat j)) ∅ 17
  = mem !! (4 + 4 * (17 mod 16)).
Proof.
  intros mem.
  exact (operator_index_of_load 0 mem ∅ 4 _ 17 eq_refl).
Defined.

(** ** The [int64_t] store *)

Section StoreInt64.
Variables (b : batch_float_16) (tmp dst : Z).
Hypothesis apart :
  forall j k, (j < 16)%nat -> (k < 16)%nat -> dst + 8 * Z.of_nat k <> tmp + 4 * Z.of_nat j.

Lemma store_int64_loop (l : list nat) (m : gmap Z Z) :
  (forall k, In k l -> (k < 16)%nat) ->
  (forall j, (j < 16)%nat -> m !! (tmp + 4 * Z.of_nat j) = Some (lane b j)) ->
  fold_left
    (fun acc k =>
       mem2 ← acc;
       t ← mem2 !! (tmp + 4 * Z.of_nat k);
       Some (<[dst + 8 * Z.of_nat k := scalar_to_int64 t]> mem2))
    l (Some m)
  = Some (fold_left
            (put_lane 8 dst (for_lanes 16 (fun j => scalar_to_int64 (lane b j)))) l m).
Proof.
  revert m. induction l as [|a l IH]; intros m Hl Hm; [reflexivity|].
  assert (a < 16)%nat as Ha by (apply Hl; left; reflexivity).
  cbn [fold_left]. cbn [mbind option_bind]. rewrite (Hm a Ha). cbn [mbind option_bind].
  rewrite IH.
  - unfold put_lane at 3. rewrite lane_for_lanes by exact Ha. reflexivity.
  - intros k Hk. apply Hl. right. exact Hk.
  - intros j Hj. rewrite lookup_insert_ne by (apply apart; assumption). apply Hm, Hj.
Qed.
End StoreInt64.

(** X5: [store_aligned(int64_t* dst)] and [store_unaligned(int64_t* dst)]
    accept every [dst] that does not overlap the local array, aligned or
    not, and write in element [i] the truncation toward zero of lane [i]. *)
Theorem store_int64_truncates (slot : Z) (b : batch_float_16) (mem : gmap Z Z)
    (dst : Z) (i : nat) :
  (forall j k, (j < 16)%nat -> (k < 16)%nat ->
     dst + 8 * Z.of_nat k <> alignas64 slot + 4 * Z.of_nat j) ->
  (i < 16)%nat ->
  exists mem',
    store_aligned_int64 slot b mem dst = Some mem' /\
    store_unaligned_int64 slot b mem dst = Some mem' /\
    mem' !! (dst + 8 * Z.of_nat i) = Some (scalar_to_int64 (lane b i)) /\
    (forall n, truncation_toward_zero (lane b i) = Some n ->
               - 2 ^ 63 <= n < 2 ^ 63 ->
               signed 64 (scalar_to_int64 (lane b i)) = n).
Proof.
  intros Hapart Hi.
  exists (write16 8 (write16 4 mem (alignas64 slot) b) dst
            (for_lanes 16 (fun j => scalar_to_int64 (lane b j)))).
  assert (store_aligned_int64 slot b mem dst
          = Some (write16 8 (write16 4 mem (alignas64 slot) b) dst
                    (for_lanes 16 (fun j => scalar_to_int64 (lane b j))))) as E.
  { unfold store_aligned_int64. rewrite store_aligned_float_local.
    cbn [mbind option_bind].
    apply (store_int64_loop b (alignas64 slot) dst Hapart).
    - intros k Hk. apply in_seq in Hk. lia.
    - intros j Hj. apply write16_lookup; lia. }
  split; [exact E|]. split; [exact E|]. split.
  - rewrite write16_lookup by lia. rewrite lane_for_lanes by exact Hi. reflexivity.
  - intros n Hn Hr. apply (float_to_int_zero_truncation 64); [lia | exact Hn | exact Hr].
Qed.

Lemma store_int64_truncates_witness :
  exists mem',
    store_aligned_int64 16 [0xC0200000] ∅ 4 = Some mem' /\
    mem' !! 4 = Some (scalar_to_int64 0xC0200000).
Proof.
  destruct (store_int64_truncates 16 [0xC0200000] ∅ 4 0) as (mem' & E & _ & L & _).
  - intros j k Hj Hk. unfold alignas64. lia.
  - lia.
  - exists mem'. split; [exact E | exact L].
Defined.

(** ** Comparison laws *)

Lemma SFcompare_antisym (x y : spec_float) :
  SFcompare y x = match SFcompare x y with
                  | Some c => Some (CompOpp c)
                  | None => None
                  end.
Proof.
  destruct x as [sx|sx| |sx mx ex], y as [sy|sy| |sy my ey]; cbn [SFcompare];
    try reflexivity;
    try (destruct sx; reflexivity); try (destruct sy; reflexivity);
    try (destruct sx, sy; reflexivity).
  pose proof (Pos.compare_cont_antisym mx my Eq) as Hm. cbn [CompOpp] in Hm.
  rewrite (Z.compare_antisym ex ey).
  destruct sx, sy; try reflexivity;
    destruct (ex ?= ey); cbn [CompOpp]; try reflexivity;
    rewrite <- Hm; destruct (Pos.compare_cont Eq mx my); reflexivity.
Qed.

Lemma fcompare32_antisym (a b : Z) :
  fcompare32 b a = match fcompare32 a b with
                   | Some c => Some (CompOpp c)
                   | None => None
                   end.
Proof. apply SFcompare_antisym. Qed.

Lemma SFcompare_refl (x : spec_float) : x <> S754_nan -> SFcompare x x = Some Eq.
Proof.
  destruct x as [s|s| |s m e]; intros H; cbn [SFcompare]; try congruence.
  - destruct s; reflexivity.
  - rewrite Z.compare_refl, Pos.compare_cont_refl. destruct s; reflexivity.
Qed.

Lemma fcompare32_refl (x : Z) : is_nan x = false -> fcompare32 x x = Some Eq.
Proof.
  intros H. apply SFcompare_refl. intros E. apply to_spec_nan in E. congruence.
Qed.

Lemma SFcompare_Eq (x y : spec_float) :
  SFcompare x y = Some Eq ->
  x = y \/ exists s s', x = S754_zero s /\ y = S754_zero s'.
Proof.
  destruct x as [sx|sx| |sx mx ex], y as [sy|sy| |sy my ey]; cbn [SFcompare];
    intros H; try discriminate.
  - right. eauto.
  - destruct sy; discriminate.
  - destruct sy; discriminate.
  - destruct sx; discriminate.
  - destruct sx, sy; try discriminate; left; reflexivity.
  - destruct sx; discriminate.
  - destruct sx; discriminate.
  - destruct sy; discriminate.
  - left.
    assert (ex = ey /\ mx = my) as [-> ->].
    { destruct sx, sy; try discriminate;
        destruct (ex ?= ey) eqn:Ee; try discriminate;
        apply Z.compare_eq in Ee; (split; [exact Ee|]);
        destruct (Pos.compare_cont Eq mx my) eqn:Em; try discriminate;
        apply Pos.compare_eq; exact Em. }
    destruct sx, sy; try reflexivity; discriminate H.
Qed.

(** Decoding and encoding again gives the pattern back. *)
Lemma of_spec_to_spec (x : Z) :
  0 <= x < 2 ^ 32 -> is_nan x = false -> of_spec (to_spec x) = x.
Proof.
  intros Hx Hn. destruct (fields x Hx) as (Hd & He & Hf).
  unfold is_nan in Hn. unfold to_spec.
  destruct (Z.eqb_spec (biased_exp x) 255) as [E255|N255].
  - destruct (Z.eqb_spec (fraction x) 0) as [F0|F0]; [|discriminate].
    cbn [of_spec]. rewrite E255, F0 in Hd. lia.
  - destruct (Z.eqb_spec (biased_exp x) 0) as [E0|N0].
    + destruct (fraction x) as [|m|m] eqn:F.
      * cbn [of_spec]. rewrite E0 in Hd. lia.
      * cbn [of_spec]. destruct (Z.ltb_spec (Z.pos m) 0x800000); [rewrite E0 in Hd; lia | lia].
      * lia.
    + cbn [of_spec]. rewrite Z2Pos.id by lia.
      destruct (Z.ltb_spec (fraction x + 0x800000) 0x800000); lia.
Qed.

Lemma to_spec_zero (x : Z) (s : bool) :
  0 <= x < 2 ^ 32 -> to_spec x = S754_zero s -> x = sign_bit s.
Proof.
  intros Hx E. rewrite <- (of_spec_to_spec x Hx).
  - rewrite E. reflexivity.
  - destruct (is_nan x) eqn:Hn; [|reflexivity].
    apply to_spec_nan in Hn. congruence.
Qed.

(** X6: lane [i] of [a == b] is true exactly when neither lane is a NaN
    and the two lanes have the same bits or are both zeros, of either
    sign. *)
Theorem operator_eq_lane (a b : batch_float_16) (i : nat) :
  (i < 16)%nat -> 0 <= lane a i < 2 ^ 32 -> 0 <= lane b i < 2 ^ 32 ->
  bool_lane (operator_eq a b) i = true <->
  is_nan (lane a i) = false /\ is_nan (lane b i) = false /\
  (lane a i = lane b i \/
   (lane a i = 0 \/ lane a i = 0x80000000) /\ (lane b i = 0 \/ lane b i = 0x80000000)).
Proof.
  intros Hi Ha Hb. unfold operator_eq. rewrite cmp_ps_mask_lane by exact Hi.
  change (cmp_predicate _CMP_EQ_OQ) with (cmp_table false false true false).
  split.
  - intros H.
    destruct (fcompare32 (lane a i) (lane b i)) as [[]|] eqn:E; try discriminate.
    assert (is_nan (lane a i) = false) as Hna.
    { destruct (is_nan (lane a i)) eqn:N; [|reflexivity].
      rewrite fcompare32_nan_l in E by exact N. discriminate. }
    assert (is_nan (lane b i) = false) as Hnb.
    { destruct (is_nan (lane b i)) eqn:N; [|reflexivity].
      rewrite fcompare32_nan_r in E by exact N. discriminate. }
    split; [exact Hna|]. split; [exact Hnb|].
    apply SFcompare_Eq in E. destruct E as [E|(s & s' & Ea & Eb)].
    + left. rewrite <- (of_spec_to_spec _ Ha Hna), <- (of_spec_to_spec _ Hb Hnb).
      rewrite E. reflexivity.
    + right. apply to_spec_zero in Ea; [|exact Ha]. apply to_spec_zero in Eb; [|exact Hb].
      rewrite Ea, Eb. destruct s, s'; cbn [sign_bit]; auto.
  - intros (Hna & Hnb & [E|[Za Zb]]).
    + rewrite E. rewrite fcompare32_refl by exact Hnb. reflexivity.
    + destruct Za as [-> | ->], Zb as [-> | ->]; reflexivity.
Qed.

Lemma operator_eq_lane_witness :
  bool_lane (operator_eq [0; 0x3F800000] [0x80000000; 0x3F800000]) 0 = true.
Proof.
  apply (operator_eq_lane [0; 0x3F800000] [0x80000000; 0x3F800000] 0).
  - lia.
  - unfold lane; simpl; lia.
  - unfold lane; simpl; lia.
  - split; [reflexivity|]. split; [reflexivity|]. right. split; [left | right]; reflexivity.
Defined.

(** X7: lane [i] of [a <= b] is [(a < b)[i] || (a == b)[i]]; it is false
    when a lane is a NaN, and on lanes without NaN it is the negation of
    [(b < a)[i]]. *)
Theorem operator_le_lane (a b : batch_float_16) (i : nat) :
  (i < 16)%nat ->
  bool_lane (operator_le a b) i
  = bool_lane (operator_lt a b) i || bool_lane (operator_eq a b) i /\
  (is_nan (lane a i) = true \/ is_nan (lane b i) = true ->
   bool_lane (operator_le a b) i = false) /\
  (is_nan (lane a i) = false -> is_nan (lane b i) = false ->
   bool_lane (operator_le a b) i = negb (bool_lane (operator_lt b a) i)).
Proof.
  intros Hi. unfold operator_le, operator_lt, operator_eq.
  rewrite !cmp_ps_mask_lane by exact Hi.
  change (cmp_predicate _CMP_LE_OQ) with (cmp_table false true true false).
  change (cmp_predicate _CMP_LT_OQ) with (cmp_table false true false false).
  change (cmp_predicate _CMP_EQ_OQ) with (cmp_table false false true false).
  rewrite (fcompare32_antisym (lane a i) (lane b i)).
  split; [|split].
  - destruct (fcompare32 (lane a i) (lane b i)) as [[]|]; reflexivity.
  - intros Hn. apply fcompare32_unordered in Hn. rewrite Hn. reflexivity.
  - intros Hna Hnb.
    destruct (fcompare32 (lane a i) (lane b i)) as [[]|] eqn:E; try reflexivity.
    apply fcompare32_unordered in E. destruct E; congruence.
Qed.

Lemma operator_le_lane_witness :
  let a := [0x3F800000; 0x7FC00000] in
  let b := [0x40000000; 0x3F800000] in
  bool_lane (operator_le a b) 0
  = bool_lane (operator_lt a b) 0 || bool_lane (operator_eq a b) 0.
Proof.
  intros a b. exact (proj1 (operator_le_lane a b 0 ltac:(lia))).
Defined.

(** X8: [<] is a strict order on the lanes: when [(a < b)[i]] holds,
    neither [(b < a)[i]] nor [(a == b)[i]] does, and on lanes without NaN
    one of [a < b], [a == b], [b < a] holds. *)
Theorem operator_lt_strict (a b : batch_float_16) (i : nat) :
  (i < 16)%nat ->
  (bool_lane (operator_lt a b) i = true ->
   bool_lane (operator_lt b a) i = false /\ bool_lane (operator_eq a b) i = false) /\
  (is_nan (lane a i) = false -> is_nan (lane b i) = false ->
   bool_lane (operator_lt a b) i || bool_lane (operator_eq a b) i
   || bool_lane (operator_lt b a) i = true).
Proof.
  intros Hi. unfold operator_lt, operator_eq.
  rewrite !cmp_ps_mask_lane by exact Hi.
  change (cmp_predicate _CMP_LT_OQ) with (cmp_table false true false false).
  change (cmp_predicate _CMP_EQ_OQ) with (cmp_table false false true false).
  rewrite (fcompare32_antisym (lane a i) (lane b i)).
  split.
  - destruct (fcompare32 (lane a i) (lane b i)) as [[]|]; cbn; intros H;
      try discriminate; split; reflexivity.
  - intros Hna Hnb.
    destruct (fcompare32 (lane a i) (lane b i)) as [[]|] eqn:E; try reflexivity.
    apply fcompare32_unordered in E. destruct E; congruence.
Qed.

Lemma operator_lt_strict_witness :
  let a := [0x3F800000] in
  let b := [0x40000000] in
  bool_lane (operator_lt b a) 0 = false /\ bool_lane (operator_eq a b) 0 = false.
Proof.
  intros a b. apply (proj1 (operator_lt_strict a b 0 ltac:(lia))). reflexivity.
Defined.

(** X9: [isnan(x)] is the complement of [x == x] on every lane. *)
Theorem isnan_not_self_equal (x : batch_float_16) (i : nat) :
  (i < 16)%nat ->
  bool_lane (isnan x) i = negb (bool_lane (operator_eq x x) i).
Proof.
  intros Hi. unfold isnan, operator_eq. rewrite !cmp_ps_mask_lane by exact Hi.
  change (cmp_predicate _CMP_EQ_OQ) with (cmp_table false false true false).
  change (cmp_predicate _CMP_UNORD_Q) with (cmp_table false false false true).
  destruct (is_nan (lane x i)) eqn:Hn.
  - rewrite fcompare32_nan_l by exact Hn. reflexivity.
  - rewrite fcompare32_refl by exact Hn. reflexivity.
Qed.

Lemma isnan_not_self_equal_witness :
  let x := [0x3F800000; 0x7FC00000] in
  bool_lane (isnan x) 1 = negb (bool_lane (operator_eq x x) 1).
Proof.
  intros x. exact (isnan_not_self_equal x 1 ltac:(lia)).
Defined.

(** ** Minimum, maximum and absolute value *)

Lemma mask_blend_lane (k : mmask16) (a b : m512) (i : nat) :
  (i < 16)%nat ->
  lane (_mm512_mask_blend_ps k a b) i = if bool_lane k i then lane b i else lane a i.
Proof.
  intros Hi. unfold _mm512_mask_blend_ps. rewrite lane_for_lanes by exact Hi. reflexivity.
Qed.

Lemma is_zero32_compare (x y : Z) :
  is_zero32 x = true -> is_zero32 y = true -> fcompare32 x y = Some Eq.
Proof.
  unfold is_zero32, fcompare32.
  destruct (to_spec x), (to_spec y); try discriminate. reflexivity.
Qed.

Lemma fmin32_select (x y : Z) :
  fmin32 x y = match fcompare32 x y with Some Lt => x | _ => y end.
Proof.
  unfold fmin32.
  destruct (is_zero32 x && is_zero32 y) eqn:Hz.
  - apply andb_prop in Hz. destruct Hz as [Hx Hy].
    rewrite (is_zero32_compare x y Hx Hy). reflexivity.
  - destruct (is_nan x) eqn:Hx; [rewrite fcompare32_nan_l by exact Hx; reflexivity|].
    destruct (is_nan y) eqn:Hy; [rewrite fcompare32_nan_r by exact Hy; reflexivity|].
    reflexivity.
Qed.

Lemma fmax32_select (x y : Z) :
  fmax32 x y = match fcompare32 y x with Some Lt => x | _ => y end.
Proof.
  unfold fmax32. rewrite (fcompare32_antisym x y).
  destruct (is_zero32 x && is_zero32 y) eqn:Hz.
  - apply andb_prop in Hz. destruct Hz as [Hx Hy].
    rewrite (is_zero32_compare x y Hx Hy). reflexivity.
  - destruct (is_nan x) eqn:Hx; [rewrite fcompare32_nan_l by exact Hx; reflexivity|].
    destruct (is_nan y) eqn:Hy; [rewrite fcompare32_nan_r by exact Hy; reflexivity|].
    destruct (fcompare32 x y) as [[]|]; reflexivity.
Qed.

(** X10: [min(a, b)] and [fmin(a, b)] are [select(a < b, a, b)] on every
    lane: the second operand is returned unless the first is strictly
    smaller, so also when a lane is a NaN or when both are zeros. *)
Theorem min_is_select (a b : batch_float_16) (i : nat) :
  (i < 16)%nat ->
  lane (min a b) i = lane (select (operator_lt a b) a b) i /\
  lane (fmin a b) i = lane (select (operator_lt a b) a b) i.
Proof.
  intros Hi.
  assert (lane (min a b) i = lane (select (operator_lt a b) a b) i) as E.
  { unfold min, _mm512_min_ps, select. rewrite lane_for_lanes by exact Hi.
    rewrite mask_blend_lane by exact Hi.
    unfold operator_lt. rewrite cmp_ps_mask_lane by exact Hi.
    change (cmp_predicate _CMP_LT_OQ) with (cmp_table false true false false).
    rewrite fmin32_select.
    destruct (fcompare32 (lane a i) (lane b i)) as [[]|]; reflexivity. }
  split; [exact E | exact E].
Qed.

Lemma min_is_select_witness :
  let a := [0x7FC00000; 0x3F800000] in
  let b := [0x3F800000; 0x7FC00000] in
  lane (min a b) 0 = lane (select (operator_lt a b) a b) 0.
Proof.
  intros a b. exact (proj1 (min_is_select a b 0 ltac:(lia))).
Defined.

(** X11: [max(a, b)] and [fmax(a, b)] are [select(b < a, a, b)] on every
    lane. *)
Theorem max_is_select (a b : batch_float_16) (i : nat) :
  (i < 16)%nat ->
  lane (max a b) i = lane (select (operator_lt b a) a b) i /\
  lane (fmax a b) i = lane (select (operator_lt b a) a b) i.
Proof.
  intros Hi.
  assert (lane (max a b) i = lane (select (operator_lt b a) a b) i) as E.
  { unfold max, _mm512_max_ps, select. rewrite lane_for_lanes by exact Hi.
    rewrite mask_blend_lane by exact Hi.
    unfold operator_lt. rewrite cmp_ps_mask_lane by exact Hi.
    change (cmp_predicate _CMP_LT_OQ) with (cmp_table false true false false).
    rewrite fmax32_select.
    destruct (fcompare32 (lane b i) (lane a i)) as [[]|]; reflexivity. }
  split; [exact E | exact E].
Qed.

Lemma max_is_select_witness :
  let a := [0x7FC00000; 0x40000000] in
  let b := [0x3F800000; 0x3F800000] in
  lane (max a b) 1 = lane (select (operator_lt b a) a b) 1.
Proof.
  intros a b. exact (proj1 (max_is_select a b 1 ltac:(lia))).
Defined.

Lemma abs_lane (x : batch_float_16) (i : nat) :
  (i < 16)%nat -> lane (abs x) i = lane x i mod 2 ^ 31.
Proof.
  intros Hi. unfold abs, cast_m512i_m512, cast_m512_m512i, _mm512_and_epi32,
    _mm512_set1_epi32.
  rewrite lane_for_lanes by exact Hi. rewrite lane_for_lanes by exact Hi.
  change (0x7fffffff mod 2 ^ 32) with (Z.ones 31).
  apply Z.land_ones. lia.
Qed.

Lemma operator_neg_value (x : batch_float_16) (i : nat) :
  (i < 16)%nat -> lane (operator_neg x) i = fsub32 0 (lane x i).
Proof.
  intros Hi. unfold operator_neg, _mm512_sub_ps. rewrite lane_for_lanes by exact Hi.
  unfold _mm512_setzero_ps. rewrite lane_for_lanes by exact Hi. reflexivity.
Qed.

Lemma fields_of_sum (e f : Z) :
  0 <= e < 2 ^ 8 -> 0 <= f < 2 ^ 23 ->
  biased_exp (e * 2 ^ 23 + f) = e /\ fraction (e * 2 ^ 23 + f) = f.
Proof.
  intros He Hf. rewrite biased_exp_mod, fraction_mod. split.
  - replace ((e * 2 ^ 23 + f) / 2 ^ 23) with e
      by (apply (Z.div_unique _ (2 ^ 23) e f); lia).
    apply Z.mod_small. lia.
  - symmetry. apply (Z.mod_unique _ (2 ^ 23) e f); lia.
Qed.

Lemma low31_fields (x y : Z) (s : bool) :
  0 <= x < 2 ^ 32 ->
  y = sign_bit s + biased_exp x * 2 ^ 23 + fraction x ->
  y mod 2 ^ 31 = biased_exp x * 2 ^ 23 + fraction x.
Proof.
  intros Hx Hy. destruct (fields x Hx) as (_ & He & Hf).
  symmetry. apply (Z.mod_unique _ (2 ^ 31) (if s then 1 else 0)); [lia|].
  destruct s; cbn [sign_bit] in Hy; lia.
Qed.

Lemma scalar_neg_mod (x : Z) :
  0 <= x < 2 ^ 32 -> scalar_neg x mod 2 ^ 31 = x mod 2 ^ 31.
Proof.
  intros Hx.
  rewrite (low31_fields x _ _ Hx (scalar_neg_fields x Hx)).
  rewrite (low31_fields x x _ Hx (proj1 (fields x Hx))). reflexivity.
Qed.

(** X12: [abs] and [fabs] clear the sign bit and keep the other 31 bits:
    the result is the lane modulo [2^31], its sign bit is 0, exponent and
    fraction are those of the operand; applying [abs] twice changes
    nothing, and the absolute value of [-x] is that of [x] on every lane
    that is not a NaN. *)
Theorem abs_clears_sign (x : batch_float_16) (i : nat) :
  (i < 16)%nat -> 0 <= lane x i < 2 ^ 32 ->
  lane (abs x) i = lane x i mod 2 ^ 31 /\
  lane (fabs x) i = lane (abs x) i /\
  sign_of (lane (abs x) i) = false /\
  biased_exp (lane (abs x) i) = biased_exp (lane x i) /\
  fraction (lane (abs x) i) = fraction (lane x i) /\
  lane (abs (abs x)) i = lane (abs x) i /\
  (is_nan (lane x i) = false -> lane (abs (operator_neg x)) i = lane (abs x) i).
Proof.
  intros Hi Hx. rewrite !abs_lane by exact Hi.
  destruct (fields (lane x i) Hx) as (Hd & He & Hf).
  assert (lane x i mod 2 ^ 31 = biased_exp (lane x i) * 2 ^ 23 + fraction (lane x i)) as Em
    by exact (low31_fields _ _ _ Hx Hd).
  assert (0 <= lane x i mod 2 ^ 31 < 2 ^ 31) as Hr by (apply Z.mod_pos_bound; lia).
  split; [reflexivity|]. split; [reflexivity|]. split; [|split; [|split; [|split]]].
  - rewrite sign_of_high by lia. apply Z.leb_gt. lia.
  - rewrite Em. apply fields_of_sum; assumption.
  - rewrite Em. apply fields_of_sum; assumption.
  - apply Z.mod_mod. lia.
  - intros Hn. rewrite operator_neg_value by exact Hi.
    destruct (Z.eq_dec (lane x i) 0) as [E0|N0].
    + rewrite E0. reflexivity.
    + rewrite fsub32_zero_neg by assumption. apply scalar_neg_mod, Hx.
Qed.

Lemma abs_clears_sign_witness :
  let x := [0xBF800000; 0x40000000] in
  lane (abs x) 0 = lane x 0 mod 2 ^ 31.
Proof.
  intros x.
  assert (0 <= lane x 0 < 2 ^ 32) as Hx by (unfold x, lane; simpl; lia).
  exact (proj1 (abs_clears_sign x 0 ltac:(lia) Hx)).
Defined.

(** ** Bitwise operations *)

Lemma operator_not_lane (x : batch_float_16) (i : nat) :
  (i < 16)%nat -> lane (operator_not x) i = Z.lxor (lane x i) (Z.ones 32).
Proof.
  intros Hi. unfold operator_not, _mm512_xor_ps, _mm512_castsi512_ps, _mm512_set1_epi32.
  rewrite lane_for_lanes by exact Hi. rewrite lane_for_lanes by exact Hi. reflexivity.
Qed.

Lemma testbit_high (x n : Z) : 0 <= x < 2 ^ 32 -> 32 <= n -> Z.testbit x n = false.
Proof.
  intros Hx Hn. rewrite <- (Z.mod_small x (2 ^ 32)) by lia.
  apply Z.mod_pow2_bits_high. lia.
Qed.

(** X13: the bitwise operators obey the laws of the 32-bit patterns, lane
    by lane: [~~a] is [a], [bitwise_andnot(a, b)] is [~a & b], [a ^ a] is
    all zeros, and [~(a & b)] is [~a | ~b]. *)
Theorem bitwise_laws (a b : batch_float_16) (i : nat) :
  (i < 16)%nat -> 0 <= lane a i < 2 ^ 32 -> 0 <= lane b i < 2 ^ 32 ->
  lane (operator_not (operator_not a)) i = lane a i /\
  lane (bitwise_andnot a b) i = lane (operator_and (operator_not a) b) i /\
  lane (operator_xor a a) i = 0 /\
  lane (operator_not (operator_and a b)) i
  = lane (operator_or (operator_not a) (operator_not b)) i.
Proof.
  intros Hi Ha Hb. split; [|split; [|split]].
  - rewrite !operator_not_lane by exact Hi.
    rewrite Z.lxor_assoc, Z.lxor_nilpotent, Z.lxor_0_r. reflexivity.
  - unfold bitwise_andnot, _mm512_andnot_ps, operator_and, _mm512_and_ps.
    rewrite !lane_for_lanes by exact Hi. rewrite operator_not_lane by exact Hi.
    reflexivity.
  - unfold operator_xor, _mm512_xor_ps. rewrite lane_for_lanes by exact Hi.
    apply Z.lxor_nilpotent.
  - unfold operator_or, _mm512_or_ps, operator_and, _mm512_and_ps.
    rewrite lane_for_lanes by exact Hi. rewrite !operator_not_lane by exact Hi.
    rewrite lane_for_lanes by exact Hi.
    apply Z.bits_inj'. intros n Hn.
    rewrite Z.lor_spec, !Z.lxor_spec, Z.land_spec.
    destruct (Z_lt_le_dec n 32) as [Hlo|Hhi].
    + rewrite Z.ones_spec_low by lia. rewrite !xorb_true_r. apply negb_andb.
    + rewrite Z.ones_spec_high by lia. rewrite !xorb_false_r.
      rewrite (testbit_high (lane a i)), (testbit_high (lane b i)) by assumption.
      reflexivity.
Qed.

Lemma bitwise_laws_witness :
  let a := [0x3F800000] in
  let b := [0x80000000] in
  lane (operator_not (operator_not a)) 0 = lane a 0.
Proof.
  intros a b.
  assert (0 <= lane a 0 < 2 ^ 32) as Ha by (unfold a, lane; simpl; lia).
  assert (0 <= lane b 0 < 2 ^ 32) as Hb by (unfold b, lane; simpl; lia).
  exact (proj1 (bitwise_laws a b 0 ltac:(lia) Ha Hb)).
Defined.

(** ** Arithmetic *)



Lemma binop32_ordered (op : spec_float -> spec_float -> spec_float) (x y : Z) :
  is_nan x = false -> is_nan y = false ->
  binop32 op x y = of_spec (op (to_spec x) (to_spec y)).
Proof. intros Hx Hy. unfold binop32. rewrite Hx, Hy. reflexivity. Qed.



(** With two NaN operands the sum is the first one, so the order shows. *)
Example add_nan_order :
  lane (operator_add [0x7FC00001] [0x7FC00002]) 0 = 0x7FC00001 /\
  lane (operator_add [0x7FC00002] [0x7FC00001]) 0 = 0x7FC00002.
Proof. split; reflexivity. Qed.






(** An infinity minus itself is the default NaN. *)
Example sub_self_infinity : lane (operator_sub [0x7F800000] [0x7F800000]) 0 = QNaN_indefinite.
Proof. reflexivity. Qed.

Lemma fields_of_pattern (s : bool) (e f : Z) :
  0 <= e < 2 ^ 8 -> 0 <= f < 2 ^ 23 ->
  biased_exp (sign_bit s + e * 2 ^ 23 + f) = e /\
  fraction (sign_bit s + e * 2 ^ 23 + f) = f.
Proof.
  intros He Hf. rewrite biased_exp_mod, fraction_mod. split.
  - replace ((sign_bit s + e * 2 ^ 23 + f) / 2 ^ 23) with ((if s then 256 else 0) + e)
      by (apply (Z.div_unique _ (2 ^ 23) _ f); destruct s; cbn [sign_bit]; lia).
    symmetry. apply (Z.mod_unique _ (2 ^ 8) (if s then 1 else 0)); destruct s; lia.
  - symmetry.
    apply (Z.mod_unique _ (2 ^ 23) ((if s then 256 else 0) + e));
      destruct s; cbn [sign_bit]; lia.
Qed.

Lemma scalar_neg_range (x : Z) : 0 <= x < 2 ^ 32 -> 0 <= scalar_neg x < 2 ^ 32.
Proof.
  intros Hx. rewrite scalar_neg_fields by exact Hx.
  destruct (fields x Hx) as (_ & He & Hf).
  destruct (negb (sign_of x)); cbn [sign_bit]; lia.
Qed.

Lemma scalar_neg_nan (x : Z) : 0 <= x < 2 ^ 32 -> is_nan (scalar_neg x) = is_nan x.
Proof.
  intros Hx. rewrite scalar_neg_fields by exact Hx.
  destruct (fields x Hx) as (_ & He & Hf).
  destruct (fields_of_pattern (negb (sign_of x)) _ _ He Hf) as [E1 E2].
  unfold is_nan at 1. rewrite E1, E2. reflexivity.
Qed.

Lemma scalar_neg_involutive (x : Z) : scalar_neg (scalar_neg x) = x.
Proof.
  unfold scalar_neg. rewrite Z.lxor_assoc, Z.lxor_nilpotent. apply Z.lxor_0_r.
Qed.

(** X17: negating twice gives the lane back, unless the lane is a NaN or
    [-0.0]. *)
Theorem neg_neg (x : batch_float_16) (i : nat) :
  (i < 16)%nat -> 0 <= lane x i < 2 ^ 32 -> is_nan (lane x i) = false ->
  lane x i <> 0x80000000 ->
  lane (operator_neg (operator_neg x)) i = lane x i.
Proof.
  intros Hi Hx Hn Hz. rewrite !operator_neg_value by exact Hi.
  destruct (Z.eq_dec (lane x i) 0) as [E0|N0].
  - rewrite E0. reflexivity.
  - rewrite (fsub32_zero_neg (lane x i)) by assumption.
    rewrite fsub32_zero_neg.
    + apply scalar_neg_involutive.
    + apply scalar_neg_range, Hx.
    + rewrite scalar_neg_nan by exact Hx. exact Hn.
    + intros E. apply Hz. rewrite <- (scalar_neg_involutive (lane x i)), E. reflexivity.
Qed.

Lemma neg_neg_witness :
  let x := [0x40490FDB] in lane (operator_neg (operator_neg x)) 0 = lane x 0.
Proof.
  intros x.
  assert (0 <= lane x 0 < 2 ^ 32) as Hx by (unfold x, lane; simpl; lia).
  apply (neg_neg x 0 ltac:(lia) Hx eq_refl). discriminate.
Defined.

Lemma to_spec_sign (x : Z) :
  match to_spec x with
  | S754_zero s | S754_infinity s | S754_finite s _ _ => s = sign_of x
  | S754_nan => True
  end.
Proof.
  unfold to_spec. destruct (biased_exp x =? 255).
  - destruct (fraction x =? 0); [reflexivity | exact I].
  - destruct (biased_exp x =? 0); [destruct (fraction x)|]; reflexivity.
Qed.

(** X18: the square root of a negative lane is the default NaN, except
    that the square root of [-0.0] is [-0.0]. *)
Theorem sqrt_negative (x : batch_float_16) (i : nat) :
  (i < 16)%nat -> 0 <= lane x i < 2 ^ 32 ->
  sign_of (lane x i) = true -> is_nan (lane x i) = false ->
  (lane x i <> 0x80000000 -> lane (sqrt x) i = QNaN_indefinite) /\
  (lane x i = 0x80000000 -> lane (sqrt x) i = 0x80000000).
Proof.
  intros Hi Hx Hs Hn. unfold sqrt, _mm512_sqrt_ps.
  rewrite lane_for_lanes by exact Hi. split.
  - intros Hz. unfold fsqrt32. rewrite Hn.
    generalize (to_spec_sign (lane x i)).
    destruct (to_spec (lane x i)) as [s|s| |s m e] eqn:Es; intros Sg.
    + apply to_spec_zero in Es; [|exact Hx].
      rewrite Sg, Hs in Es. cbn [sign_bit] in Es. contradiction.
    + rewrite Sg, Hs. reflexivity.
    + reflexivity.
    + rewrite Sg, Hs. reflexivity.
  - intros ->. reflexivity.
Qed.

Lemma sqrt_negative_witness :
  let x := [0xBF800000] in lane (sqrt x) 0 = QNaN_indefinite.
Proof.
  intros x.
  assert (0 <= lane x 0 < 2 ^ 32) as Hx by (unfold x, lane; simpl; lia).
  apply (proj1 (sqrt_negative x 0 ltac:(lia) Hx eq_refl eq_refl)). discriminate.
Defined.

(** X19: a division by a zero lane does not fail: a lane that is neither
    zero nor a NaN gives the infinity whose sign is the exclusive or of
    the two signs, and a zero lane gives the default NaN. *)
Theorem div_by_zero (a b : batch_float_16) (i : nat) :
  (i < 16)%nat -> 0 <= lane a i < 2 ^ 32 ->
  is_nan (lane a i) = false ->
  lane b i = 0 \/ lane b i = 0x80000000 ->
  (lane a i <> 0 -> lane a i <> 0x80000000 ->
   lane (operator_div a b) i
   = sign_bit (xorb (sign_of (lane a i)) (sign_of (lane b i))) + 0x7F800000) /\
  (lane a i = 0 \/ lane a i = 0x80000000 ->
   lane (operator_div a b) i = QNaN_indefinite).
Proof.
  intros Hi Ha Hn Hb. unfold operator_div, _mm512_div_ps.
  rewrite lane_for_lanes by exact Hi. unfold fdiv32.
  assert (is_nan (lane b i) = false) as Hnb by (destruct Hb as [-> | ->]; reflexivity).
  rewrite binop32_ordered by assumption.
  assert (to_spec (lane b i) = S754_zero (sign_of (lane b i))) as Eb
    by (destruct Hb as [-> | ->]; reflexivity).
  rewrite Eb. split.
  - intros Hz1 Hz2.
    generalize (to_spec_sign (lane a i)).
    destruct (to_spec (lane a i)) as [s|s| |s m e] eqn:Es; intros Sg.
    + apply to_spec_zero in Es; [|exact Ha].
      destruct s; cbn [sign_bit] in Es; contradiction.
    + rewrite Sg. reflexivity.
    + apply to_spec_nan in Es. congruence.
    + rewrite Sg. reflexivity.
  - intros [-> | ->]; reflexivity.
Qed.

Lemma div_by_zero_witness :
  let a := [0xBF800000] in
  let b := [0] in
  lane (operator_div a b) 0 = 0x80000000 + 0x7F800000.
Proof.
  intros a b.
  assert (0 <= lane a 0 < 2 ^ 32) as Ha by (unfold a, lane; simpl; lia).
  apply (proj1 (div_by_zero a b 0 ltac:(lia) Ha eq_refl ltac:(left; reflexivity)));
    discriminate.
Defined.

(** ** Conversions between [int32_t] and [float] *)

Lemma digits2_pos_log2 (p : positive) : Z.pos (digits2_pos p) = Z.log2 (Z.pos p) + 1.
Proof.
  assert (forall q, digits2_pos q = Pos.size q) as E
    by (induction q as [q IH|q IH|]; simpl; congruence).
  rewrite E. destruct p; simpl; rewrite ?Pos2Z.inj_succ; lia.
Qed.

Lemma digits2_pos_canonical (m : positive) :
  2 ^ 23 <= Z.pos m < 2 ^ 24 -> Z.pos (digits2_pos m) = 24.
Proof.
  intros Hm. rewrite digits2_pos_log2.
  rewrite (Z.log2_unique (Z.pos m) 23); lia.
Qed.

Lemma iter_xO (p n : positive) : Z.pos (Pos.iter xO p n) = Z.pos p * 2 ^ Z.pos n.
Proof.
  induction n as [|n IH] using Pos.peano_ind.
  - simpl. lia.
  - rewrite Pos.iter_succ, Pos2Z.inj_succ, Z.pow_succ_r by lia.
    rewrite Pos2Z.inj_xO, IH. lia.
Qed.

Lemma binary_round_aux_canonical (s : bool) (m : positive) (e : Z) :
  2 ^ 23 <= Z.pos m < 2 ^ 24 -> -149 <= e <= 104 ->
  binary_round_aux prec32 emax32 s (Z.pos m) e loc_Exact = S754_finite s m e.
Proof.
  intros Hm He.
  assert (shr_fexp prec32 emax32 (Z.pos m) e loc_Exact
          = ({| shr_m := Z.pos m; shr_r := false; shr_s := false |}, e)) as E.
  { unfold shr_fexp. cbn [Zdigits2]. rewrite (digits2_pos_canonical m Hm).
    replace (fexp prec32 emax32 (24 + e) - e) with 0
      by (unfold fexp, emin, prec32, emax32; lia).
    reflexivity. }
  unfold binary_round_aux. rewrite E. cbn [shr_m loc_of_shr_record round_nearest_even].
  rewrite E. cbn [shr_m].
  replace (e <=? emax32 - prec32) with true
    by (symmetry; apply Z.leb_le; unfold emax32, prec32; lia).
  reflexivity.
Qed.

Lemma binary_round_small (s : bool) (p : positive) :
  Z.pos p < 2 ^ 24 ->
  exists m, binary_round prec32 emax32 s p 0 = S754_finite s m (Z.log2 (Z.pos p) - 23) /\
            Z.pos m = Z.pos p * 2 ^ (23 - Z.log2 (Z.pos p)) /\
            2 ^ 23 <= Z.pos m < 2 ^ 24.
Proof.
  intros Hp.
  pose proof (Z.log2_spec (Z.pos p) ltac:(lia)) as Hl.
  pose proof (Z.log2_nonneg (Z.pos p)) as Hl0.
  assert (Z.log2 (Z.pos p) < 24) as Hl24 by (apply Z.log2_lt_pow2; lia).
  assert (forall d, 0 <= d -> Z.pos p * 2 ^ d < 2 ^ (Z.log2 (Z.pos p) + 1 + d) /\
                    2 ^ (Z.log2 (Z.pos p) + d) <= Z.pos p * 2 ^ d) as Hb.
  { intros d Hd. rewrite Z.pow_succ_r in Hl by lia.
    replace (Z.log2 (Z.pos p) + 1 + d) with (Z.succ (Z.log2 (Z.pos p) + d)) by lia.
    rewrite Z.pow_succ_r, Z.pow_add_r by lia.
    assert (0 < 2 ^ d) by (apply Z.pow_pos_nonneg; lia). nia. }
  unfold binary_round. rewrite digits2_pos_log2.
  replace (fexp prec32 emax32 (Z.log2 (Z.pos p) + 1 + 0)) with (Z.log2 (Z.pos p) - 23)
    by (unfold fexp, emin, prec32, emax32; lia).
  unfold shl_align.
  destruct (Z.log2 (Z.pos p) - 23 - 0) as [|d|d] eqn:Ed.
  - exists p. assert (Z.log2 (Z.pos p) = 23) as E23 by lia.
    rewrite E23 in *. 
    split; [apply binary_round_aux_canonical; simpl in *; lia|].
    split; [simpl; lia | simpl in *; lia].
  - lia.
  - exists (Pos.iter xO p d).
    assert (Z.pos d = 23 - Z.log2 (Z.pos p)) as Ed' by lia.
    pose proof (iter_xO p d) as Ei. rewrite Ed' in Ei.
    destruct (Hb (23 - Z.log2 (Z.pos p)) ltac:(lia)) as [Hb1 Hb2].
    replace (Z.log2 (Z.pos p) + 1 + (23 - Z.log2 (Z.pos p))) with 24 in Hb1 by lia.
    replace (Z.log2 (Z.pos p) + (23 - Z.log2 (Z.pos p))) with 23 in Hb2 by lia.
    split; [apply binary_round_aux_canonical; lia|].
    split; [exact Ei | lia].
Qed.

Lemma sign_of_pattern (s : bool) (e f : Z) :
  0 <= e < 2 ^ 8 -> 0 <= f < 2 ^ 23 -> sign_of (sign_bit s + e * 2 ^ 23 + f) = s.
Proof.
  intros He Hf. rewrite sign_of_high by (destruct s; cbn [sign_bit]; lia).
  destruct s; cbn [sign_bit]; [apply Z.leb_le | apply Z.leb_gt]; lia.
Qed.

(** A normal number survives encoding and decoding. *)
Lemma to_spec_of_spec_normal (s : bool) (m : positive) (e : Z) :
  2 ^ 23 <= Z.pos m < 2 ^ 24 -> -149 <= e <= 104 ->
  to_spec (of_spec (S754_finite s m e)) = S754_finite s m e.
Proof.
  intros Hm He. cbn [of_spec].
  destruct (Z.ltb_spec (Z.pos m) 0x800000) as [H|_]; [lia|].
  change 0x800000 with (2 ^ 23).
  assert (0 <= e + 150 < 2 ^ 8) as He' by lia.
  assert (0 <= Z.pos m - 2 ^ 23 < 2 ^ 23) as Hf by lia.
  destruct (fields_of_pattern s _ _ He' Hf) as [E1 E2].
  unfold to_spec. rewrite E1, E2, (sign_of_pattern s _ _ He' Hf).
  destruct (Z.eqb_spec (e + 150) 255) as [H|_]; [lia|].
  destruct (Z.eqb_spec (e + 150) 0) as [H|_]; [lia|].
  change 0x800000 with (2 ^ 23).
  replace (Z.pos m - 2 ^ 23 + 2 ^ 23) with (Z.pos m) by lia.
  replace (e + 150 - 150) with e by lia.
  reflexivity.
Qed.

Lemma round_quotient_exact (rc : rounding_control) (q d : Z) :
  0 < d -> round_quotient rc (q * d) d = q.
Proof.
  intros Hd. destruct rc; cbn [round_quotient].
  - rewrite Z.div_mul, Z.mod_mul by lia. change (2 * 0) with 0.
    destruct (Z.compare_spec 0 d); [lia | reflexivity | lia].
  - apply Z.div_mul. lia.
  - rewrite <- Z.mul_opp_l, Z.div_mul by lia. lia.
  - apply Z.quot_mul. lia.
Qed.

Lemma int_to_float_small (rc : rounding_control) (n : Z) :
  n <> 0 -> Z.abs n < 2 ^ 24 ->
  exists m e,
    to_spec (int_to_float rc n) = S754_finite (n <? 0) m e /\
    -23 <= e <= 0 /\ Z.pos m = Z.abs n * 2 ^ (- e).
Proof.
  intros Hn0 Hn.
  assert (Z.log2 (Z.abs n) < 24) as Hl by (apply Z.log2_lt_pow2; lia).
  pose proof (Z.log2_nonneg (Z.abs n)) as Hl0.
  unfold int_to_float.
  replace (Z.max 0 (Z.log2 (Z.abs n) + 1 - 24)) with 0 by lia.
  replace (round_quotient rc n (2 ^ 0)) with n
    by (symmetry; rewrite <- (Z.mul_1_r n) at 1; apply round_quotient_exact; lia).
  destruct n as [|p|p]; [contradiction| |].
  - change (Z.abs (Z.pos p)) with (Z.pos p) in *.
    change (Z.pos p <? 0) with false.
    destruct (binary_round_small false p Hn) as (m & E & Em & Hm).
    exists m, (Z.log2 (Z.pos p) - 23). cbn [binary_normalize]. rewrite E.
    split; [apply to_spec_of_spec_normal; lia|].
    split; [lia|]. rewrite Em. f_equal. f_equal. lia.
  - change (Z.abs (Z.neg p)) with (Z.pos p) in *.
    change (Z.neg p <? 0) with true.
    destruct (binary_round_small true p Hn) as (m & E & Em & Hm).
    exists m, (Z.log2 (Z.pos p) - 23). cbn [binary_normalize]. rewrite E.
    split; [apply to_spec_of_spec_normal; lia|].
    split; [lia|]. rewrite Em. f_equal. f_equal. lia.
Qed.

Lemma signed_unsigned (w p : Z) : 0 < w -> 0 <= p < 2 ^ w -> signed w p mod 2 ^ w = p.
Proof.
  intros Hw Hp. unfold signed. rewrite (Z.mod_small p) by lia.
  destruct (Z.ltb_spec p (2 ^ (w - 1))).
  - apply Z.mod_small. lia.
  - symmetry. apply (Z.mod_unique _ (2 ^ w) (-1)); lia.
Qed.

(** An integer of at most 24 significant bits is converted exactly, and
    converted back to itself, in every rounding mode. *)
Lemma int_float_int (w : Z) (rc1 rc2 : rounding_control) (p : Z) :
  25 <= w -> 0 <= p < 2 ^ w -> Z.abs (signed w p) < 2 ^ 24 ->
  float_to_int w rc2 (int_to_float rc1 (signed w p)) = p.
Proof.
  intros Hw Hp Hs. pose proof (signed_unsigned w p ltac:(lia) Hp) as Em.
  assert (2 ^ 24 <= 2 ^ (w - 1)) as Hpow by (apply Z.pow_le_mono_r; lia).
  destruct (Z.eq_dec (signed w p) 0) as [E0|N0].
  - rewrite E0 in *. rewrite <- Em.
    rewrite Z.mod_0_l by (apply Z.pow_nonzero; lia).
    destruct rc1; reflexivity.
  - destruct (int_to_float_small rc1 _ N0 Hs) as (m & e & E & He & Hm).
    unfold float_to_int. rewrite E.
    assert (round_to_integer rc2 (signed w p <? 0) m e = signed w p) as ->.
    { unfold round_to_integer. rewrite Hm.
      assert (cond_Zopp (signed w p <? 0) (Z.abs (signed w p)) = signed w p) as Ec
        by (unfold cond_Zopp; destruct (Z.ltb_spec (signed w p) 0); lia).
      destruct (Z.leb_spec 0 e).
      - replace e with 0 by lia. cbn [Z.opp Z.pow]. rewrite !Z.mul_1_r. exact Ec.
      - replace (cond_Zopp (signed w p <? 0) (Z.abs (signed w p) * 2 ^ (- e)))
          with (signed w p * 2 ^ (- e))
          by (rewrite <- Ec at 1; unfold cond_Zopp;
              destruct (signed w p <? 0); lia).
        apply round_quotient_exact. apply Z.pow_pos_nonneg; lia. }
    destruct (Z.leb_spec (- 2 ^ (w - 1)) (signed w p)); [|lia].
    destruct (Z.ltb_spec (signed w p) (2 ^ (w - 1))); [|lia].
    cbn [andb]. exact Em.
Qed.

(** X20: an [int32_t] array whose element [i] has at most 24 significant
    bits, loaded with [load_aligned] or [load_unaligned] and stored again
    with [store_aligned] or [store_unaligned], gives element [i] back
    unchanged, whatever the rounding control is at the load and at the
    store. *)
Theorem int32_load_store_round_trip (rc1 rc2 : rounding_control)
    (mem mem2 mem3 : gmap Z Z) (src dst : Z) (b : batch_float_16) (i : nat) (p : Z) :
  load_aligned_int32 rc1 mem src = Some b \/ load_unaligned_int32 rc1 mem src = Some b ->
  store_aligned_int32 rc2 b mem2 dst = Some mem3 \/
  store_unaligned_int32 rc2 b mem2 dst = Some mem3 ->
  (i < 16)%nat ->
  mem !! (src + 4 * Z.of_nat i) = Some p ->
  0 <= p < 2 ^ 32 -> Z.abs (signed 32 p) < 2 ^ 24 ->
  mem3 !! (dst + 4 * Z.of_nat i) = Some p.
Proof.
  intros Hload Hstore Hi Hmem Hp Hs.
  assert (exists a, read16 4 mem src = Some a /\ b = _mm512_cvt_roundepi32_ps rc1 a)
    as (a & Ha & ->).
  { destruct Hload as [H|H].
    - unfold load_aligned_int32, _mm512_load_si512 in H.
      destruct (aligned64 src); [|discriminate].
      destruct (read16 4 mem src) as [a|]; [|discriminate].
      injection H as <-. exists a. split; reflexivity.
    - unfold load_unaligned_int32, _mm512_loadu_si512 in H.
      destruct (read16 4 mem src) as [a|]; [|discriminate].
      injection H as <-. exists a. split; reflexivity. }
  assert (lane a i = p) as Ea.
  { pose proof (read16_lane 4 mem src a i Ha Hi) as E. congruence. }
  assert (mem3 !! (dst + 4 * Z.of_nat i)
          = Some (float_to_int 32 rc2 (lane (_mm512_cvt_roundepi32_ps rc1 a) i))) as ->.
  { destruct Hstore as [H|H].
    - apply (store_aligned_int32_lane rc2 _ mem2 mem3 dst i Hi H).
    - apply (store_unaligned_int32_lane rc2 _ mem2 mem3 dst i Hi H). }
  unfold _mm512_cvt_roundepi32_ps. rewrite lane_for_lanes by exact Hi.
  rewrite Ea. f_equal. apply int_float_int; [lia | assumption | assumption].
Qed.

Lemma int32_load_store_round_trip_witness :
  let a := for_lanes 16 (fun j => (4294967296 - Z.of_nat j) mod 4294967296) in
  let mem := write16 4 ∅ 4 a in
  let b := _mm512_cvt_roundepi32_ps RC_up a in
  write16 4 ∅ 64 (_mm512_cvtps_epi32 RC_down b) !! (64 + 4 * Z.of_nat 3) = Some 4294967293.
Proof.
  intros a mem b.
  apply (int32_load_store_round_trip RC_up RC_down mem ∅ _ 4 64 b 3 4294967293).
  - right. reflexivity.
  - left. reflexivity.
  - lia.
  - reflexivity.
  - lia.
  - vm_compute. reflexivity.
Defined.

(** ** More on stores, constructors and [haddp] *)

Lemma float_to_int_special (w : Z) (rc : rounding_control) (x : Z) :
  biased_exp x = 255 -> float_to_int w rc x = 2 ^ (w - 1).
Proof.
  intros He. unfold float_to_int, to_spec. rewrite He. cbn [Z.eqb Pos.eqb].
  destruct (fraction x =? 0); reflexivity.
Qed.

(** X21: a lane that holds a NaN or an infinity is stored by the
    [int32_t] stores as [0x80000000], in every rounding mode. *)
Theorem store_int32_special (rc : rounding_control) (b : batch_float_16)
    (mem mem' : gmap Z Z) (dst : Z) (i : nat) :
  store_aligned_int32 rc b mem dst = Some mem' \/
  store_unaligned_int32 rc b mem dst = Some mem' ->
  (i < 16)%nat -> biased_exp (lane b i) = 255 ->
  mem' !! (dst + 4 * Z.of_nat i) = Some 0x80000000.
Proof.
  intros H Hi He.
  assert (mem' !! (dst + 4 * Z.of_nat i) = Some (float_to_int 32 rc (lane b i))) as ->.
  { destruct H as [H|H].
    - apply (store_aligned_int32_lane rc b mem mem' dst i Hi H).
    - apply (store_unaligned_int32_lane rc b mem mem' dst i Hi H). }
  rewrite float_to_int_special by exact He. reflexivity.
Qed.

Lemma store_int32_special_witness :
  write16 4 ∅ 4 (_mm512_cvtps_epi32 RC_nearest [0x7FC00000; 0xFF800000]) !! (4 + 4 * Z.of_nat 1)
  = Some 0x80000000.
Proof.
  apply (store_int32_special RC_nearest [0x7FC00000; 0xFF800000] ∅ _ 4 1).
  - right. reflexivity.
  - lia.
  - reflexivity.
Defined.

(** X22: when the rounding control is "toward zero", the [int32_t] stores
    do write the truncation of every finite lane whose truncation fits in
    32 bits. *)
Theorem store_int32_toward_zero (b : batch_float_16) (mem mem' : gmap Z Z)
    (dst : Z) (i : nat) (n : Z) :
  store_aligned_int32 RC_zero b mem dst = Some mem' \/
  store_unaligned_int32 RC_zero b mem dst = Some mem' ->
  (i < 16)%nat ->
  truncation_toward_zero (lane b i) = Some n -> - 2 ^ 31 <= n < 2 ^ 31 ->
  exists p, mem' !! (dst + 4 * Z.of_nat i) = Some p /\ signed 32 p = n.
Proof.
  intros H Hi Hn Hr. exists (float_to_int 32 RC_zero (lane b i)). split.
  - destruct H as [H|H].
    + apply (store_aligned_int32_lane RC_zero b mem mem' dst i Hi H).
    + apply (store_unaligned_int32_lane RC_zero b mem mem' dst i Hi H).
  - apply float_to_int_zero_truncation; [lia | exact Hn | exact Hr].
Qed.

Lemma store_int32_toward_zero_witness :
  exists p,
    write16 4 ∅ 4 (_mm512_cvtps_epi32 RC_zero [0xC0200000]) !! (4 + 4 * Z.of_nat 0) = Some p /\
    signed 32 p = -2.
Proof.
  apply (store_int32_toward_zero [0xC0200000] ∅ _ 4 0 (-2)).
  - right. reflexivity.
  - lia.
  - reflexivity.
  - lia.
Defined.

(** X23: indexing what the constructors build: the broadcast constructor
    gives its argument at every index, and the sixteen-argument
    constructor gives argument number [k mod 16], the first argument
    being lane 0. *)
Theorem constructors_index (slot : Z) (mem : gmap Z Z) (k : Z)
    (i i0 i1 i2 i3 i4 i5 i6 i7 i8 i9 i10 i11 i12 i13 i14 i15 : Z) :
  operator_index slot (batch_i i) mem k = Some i /\
  operator_index slot
    (batch_i0_i15 i0 i1 i2 i3 i4 i5 i6 i7 i8 i9 i10 i11 i12 i13 i14 i15) mem k
  = Some (nth (Z.to_nat (k mod 16))
            [i0; i1; i2; i3; i4; i5; i6; i7; i8; i9; i10; i11; i12; i13; i14; i15] 0).
Proof.
  assert (0 <= k mod 16 < 16) as Hr by (apply Z.mod_pos_bound; lia).
  rewrite !operator_index_value. split; [|reflexivity].
  unfold batch_i, _mm512_set1_ps. rewrite lane_for_lanes by lia. reflexivity.
Qed.

(** X24: lane [i] of [haddp(row)] is computed from [row[i]] alone: it
    depends neither on the other rows nor on what the cast leaves
    undefined in the upper half of the intermediate register. *)
Theorem haddp_lane_local (undefined undefined' : m256) (row row' : list batch_float_16)
    (i : nat) :
  (i < 16)%nat -> nth i row [] = nth i row' [] ->
  lane (haddp undefined row) i = lane (haddp undefined' row') i.
Proof.
  intros Hi E. rewrite !haddp_lane by exact Hi. rewrite E. reflexivity.
Qed.

Lemma haddp_lane_local_witness :
  let r := for_lanes 16 (fun j => 0x3F800000 + Z.of_nat j) in
  lane (haddp [] [r; r]) 0 = lane (haddp [7] [r; []]) 0.
Proof.
  intros r. exact (haddp_lane_local [] [7] [r; r] [r; []] 0 ltac:(lia) eq_refl).
Defined.

(** ** The [int64_t] load *)

Section LoadInt64.
Variables (rc : rounding_control) (a : list Z) (tmp src : Z).
Hypothesis apart :
  forall j k, (j < 16)%nat -> (k < 16)%nat -> src + 8 * Z.of_nat k <> tmp + 4 * Z.of_nat j.

Lemma load_int64_loop (l : list nat) (m : gmap Z Z) :
  (forall k, In k l -> (k < 16)%nat) ->
  (forall k, (k < 16)%nat -> m !! (src + 8 * Z.of_nat k) = Some (lane a k)) ->
  fold_left
    (fun acc k =>
       mem2 ← acc;
       s ← mem2 !! (src + 8 * Z.of_nat k);
       Some (<[tmp + 4 * Z.of_nat k := scalar_of_int64 rc s]> mem2))
    l (Some m)
  = Some (fold_left
            (put_lane 4 tmp (for_lanes 16 (fun j => scalar_of_int64 rc (lane a j)))) l m).
Proof.
  revert m. induction l as [|k l IH]; intros m Hl Hm; [reflexivity|].
  assert (k < 16)%nat as Hk by (apply Hl; left; reflexivity).
  cbn [fold_left]. cbn [mbind option_bind]. rewrite (Hm k Hk). cbn [mbind option_bind].
  rewrite IH.
  - unfold put_lane at 3. rewrite lane_for_lanes by exact Hk. reflexivity.
  - intros j Hj. apply Hl. right. exact Hj.
  - intros j Hj. rewrite lookup_insert_ne by (pose proof (apart k j Hk Hj); lia).
    apply Hm, Hj.
Qed.
End LoadInt64.

(** X25: [load_aligned(const int64_t* src)] and [load_unaligned] read
    sixteen readable integers at any [src] that does not overlap the local
    array, aligned or not; lane [i] is element [i] converted to [float],
    and an element of at most 24 significant bits is converted exactly:
    converting the lane back with [int64_t(f)] gives the element. *)
Theorem load_int64_lanes (rc : rounding_control) (slot : Z) (mem : gmap Z Z)
    (src : Z) (a : list Z) (i : nat) :
  read16 8 mem src = Some a ->
  (forall j k, (j < 16)%nat -> (k < 16)%nat ->
     src + 8 * Z.of_nat k <> alignas64 slot + 4 * Z.of_nat j) ->
  (i < 16)%nat ->
  exists b,
    load_aligned_int64 rc slot mem src = Some b /\
    load_unaligned_int64 rc slot mem src = Some b /\
    lane b i = scalar_of_int64 rc (lane a i) /\
    (0 <= lane a i < 2 ^ 64 -> Z.abs (signed 64 (lane a i)) < 2 ^ 24 ->
     scalar_to_int64 (lane b i) = lane a i).
Proof.
  intros Ha Hapart Hi.
  exists (for_lanes 16 (fun j => scalar_of_int64 rc (lane a j))).
  assert (load_aligned_int64 rc slot mem src
          = Some (for_lanes 16 (fun j => scalar_of_int64 rc (lane a j)))) as E.
  { unfold load_aligned_int64.
    rewrite (load_int64_loop rc a (alignas64 slot) src Hapart).
    - cbn [mbind option_bind]. unfold _mm512_load_ps.
      rewrite aligned64_alignas64.
      change (fold_left _ (seq 0 16) mem)
        with (write16 4 mem (alignas64 slot)
                (for_lanes 16 (fun j => scalar_of_int64 rc (lane a j)))).
      rewrite read16_write16 by lia. reflexivity.
    - intros k Hk. apply in_seq in Hk. lia.
    - intros k Hk. apply (read16_lane 8 mem src a k Ha Hk). }
  split; [exact E|]. split; [exact E|].
  rewrite lane_for_lanes by exact Hi. split; [reflexivity|].
  intros Hr Hs. unfold scalar_to_int64, scalar_of_int64.
  apply int_float_int; [lia | exact Hr | exact Hs].
Qed.

Lemma load_int64_lanes_witness :
  let a := for_lanes 16 (fun j => (2 ^ 64 - Z.of_nat j) mod 2 ^ 64) in
  let mem := write16 8 ∅ 8 a in
  exists b, load_aligned_int64 RC_nearest 16 mem 8 = Some b /\
            lane b 2 = scalar_of_int64 RC_nearest (lane a 2).
Proof.
  intros a mem.
  destruct (load_int64_lanes RC_nearest 16 mem 8 a 2) as (b & E & _ & L & _).
  - reflexivity.
  - intros j k Hj Hk. unfold alignas64. lia.
  - lia.
  - exists b. split; [exact E | exact L].
Defined.
